(** * lutris/util/sql.py: a retrying query executor and CRUD helpers over sqlite3

    The module is a thin layer over Python's [sqlite3]: a context manager
    [db_cursor] that scopes one connection to one call, [cursor_execute]
    that retries a statement while the engine reports a transient
    operational error, and helpers that build a statement by string
    concatenation and run it.

    The embedding is shallow.  Python values, exceptions and strings are
    Rocq data; every call that leaves the module ([sqlite3], [logger],
    [time.sleep], [print]) goes through a driver over an abstract world
    and is recorded, with its answer, in a transcript.  The functions of
    the module are written in a state-and-exception monad over that
    world, [while True] with fuel. *)

From Stdlib Require Import ZArith Lia Bool Ascii String DecimalString.
From stdpp Require Import base option list gmap strings.

Local Open Scope Z_scope.

#[local] Set Warnings "-clear-no-such-hyp".

(** ** Python values *)

(** The values that travel through the module: bind parameters, column
    values of fetched rows, and the members of a condition tuple. *)
Inductive pyval : Type :=
| PyNone
| PyInt (z : Z)
| PyStr (s : string).

#[global] Instance pyval_eq_dec : EqDecision pyval.
Proof. solve_decision. Defined.

(** [type(v) is str] *)
Definition type_is_str (v : pyval) : bool :=
  match v with PyStr _ => true | _ => false end.

(** [str(v)], which is what [str.format] and [%s] apply to an argument. *)
Definition py_str (v : pyval) : string :=
  match v with
  | PyNone => "None"
  | PyInt z => NilZero.string_of_int (Z.to_int z)
  | PyStr s => s
  end.

(** ** Exceptions *)

Inductive exn : Type :=
| OperationalError (msg : string)
| IntegrityError (msg : string)
| ProgrammingError (msg : string)
| AssertionError
| TypeError (msg : string)
| IndexError (msg : string)
| KeyError (key : string)
| AttributeError (msg : string).

#[global] Instance exn_eq_dec : EqDecision exn.
Proof. solve_decision. Defined.

(** [isinstance(e, sqlite3.OperationalError)]: what
    [except sqlite3.OperationalError] catches. *)
Definition is_OperationalError (e : exn) : bool :=
  match e with OperationalError _ => true | _ => false end.

(** [isinstance(e, sqlite3.IntegrityError)] *)
Definition is_IntegrityError (e : exn) : bool :=
  match e with IntegrityError _ => true | _ => false end.

(** ** Strings *)

Module PyString.

(** [sep.join(l)] *)
Fixpoint join (sep : string) (l : list string) : string :=
  match l with
  | [] => ""
  | [s] => s
  | s :: rest => s +:+ sep +:+ join sep rest
  end.

(** [s * n] *)
Fixpoint repeat (s : string) (n : nat) : string :=
  match n with
  | O => ""
  | S n' => s +:+ repeat s n'
  end.

(** [s[:-n]] for a positive [n]: everything but the last [n] characters,
    and the empty string when [s] is shorter than that. *)
Definition drop_last (n : nat) (s : string) : string :=
  substring 0 (String.length s - n) s.

Definition is_digit (c : ascii) : bool :=
  let n := nat_of_ascii c in (48 <=? n)%nat && (n <=? 57)%nat.

Definition digit_value (c : ascii) : nat := (nat_of_ascii c - 48)%nat.

(** [tpl.format] on positional arguments, for the replacement fields the
    module uses, [{0}] to [{9}]; every template of the module is a
    literal whose fields are all supplied, so the default of [nth] is
    never reached. *)
Fixpoint format (tpl : string) (args : list string) : string :=
  match tpl with
  | EmptyString => EmptyString
  | String c rest =>
      if Ascii.eqb c "{" then
        match rest with
        | String d (String c' rest') =>
            if is_digit d && Ascii.eqb c' "}"
            then nth (digit_value d) args "" +:+ format rest' args
            else String c (format rest args)
        | _ => String c (format rest args)
        end
      else String c (format rest args)
  end.

(** [tpl % args] for templates whose only conversions are [%s]: each
    takes the next argument. *)
Fixpoint percent (tpl : string) (args : list string) : string :=
  match tpl with
  | EmptyString => EmptyString
  | String c rest =>
      if Ascii.eqb c "%" then
        match rest with
        | String c' rest' =>
            if Ascii.eqb c' "s"
            then hd "" args +:+ percent rest' (tl args)
            else String c (percent rest args)
        | _ => String c (percent rest args)
        end
      else String c (percent rest args)
  end.

End PyString.

(** ** The outside world *)

(** Handles of the [sqlite3] objects the module holds. *)
Definition Connection := nat.
Definition Cursor := nat.

(** One entry of [cursor.description]: a 7-tuple whose first member is the
    column name. *)
Definition column_description : Type := string * list pyval.

(** What [logger.error] is given: a message with its lazy [%] arguments,
    or an exception object. *)
Inductive log_record : Type :=
| LogFormat (msg : string) (args : list pyval)
| LogException (ex : exn).

(** What [print] is given. *)
Inductive printed : Type :=
| PrintStr (s : string)
| PrintTuple (vs : list pyval).

(** The transcript: every call out of the module, with its answer. *)
Inductive event : Type :=
| EvConnect (db_path : string) (r : exn + Connection)
| EvCursor (c : Connection) (cur : Cursor)
| EvExecute (cur : Cursor) (query : string) (params : list pyval) (r : option exn)
| EvFetchall (cur : Cursor) (rows : list (list pyval))
| EvDescription (cur : Cursor) (d : option (list column_description))
| EvLastrowid (cur : Cursor) (v : pyval)
| EvCommit (c : Connection) (r : option exn)
| EvClose (c : Connection)
| EvLogError (m : log_record)
| EvSleep (secs : Z)
| EvPrint (x : printed).

#[global] Instance log_record_eq_dec : EqDecision log_record.
Proof. solve_decision. Defined.
#[global] Instance printed_eq_dec : EqDecision printed.
Proof. solve_decision. Defined.
#[global] Instance event_eq_dec : EqDecision event.
Proof. solve_decision. Defined.

(** The [sqlite3] module and the clock, over a world [W] that holds the
    database file, whatever other processes do to it, and the time.
    [None] as the answer of [drv_execute] or [drv_commit] is a normal
    return, [Some e] an exception. *)
Record Driver (W : Type) : Type := {
  drv_connect : string -> W -> W * (exn + Connection);
  drv_cursor : Connection -> W -> W * Cursor;
  drv_execute : Cursor -> string -> list pyval -> W -> W * option exn;
  drv_fetchall : Cursor -> W -> W * list (list pyval);
  drv_description : Cursor -> W -> option (list column_description);
  drv_lastrowid : Cursor -> W -> pyval;
  drv_commit : Connection -> W -> W * option exn;
  drv_close : Connection -> W -> W;
  drv_sleep : Z -> W -> W
}.
Arguments drv_connect {W} _ _ _.
Arguments drv_cursor {W} _ _ _.
Arguments drv_execute {W} _ _ _ _ _.
Arguments drv_fetchall {W} _ _ _.
Arguments drv_description {W} _ _ _.
Arguments drv_lastrowid {W} _ _ _.
Arguments drv_commit {W} _ _ _.
Arguments drv_close {W} _ _ _.
Arguments drv_sleep {W} _ _ _.

(** ** The monad of the module's functions *)

Record state (W : Type) : Type := State { st_world : W; st_trace : list event }.
Arguments State {W} _ _.
Arguments st_world {W} _.
Arguments st_trace {W} _.

Inductive outcome (A : Type) : Type :=
| Returned (a : A)
| Raised (e : exn)
| OutOfFuel.
Arguments Returned {A} _.
Arguments Raised {A} _.
Arguments OutOfFuel {A}.

Definition M (W A : Type) : Type := state W -> state W * outcome A.

Definition ret {W A} (a : A) : M W A := fun st => (st, Returned a).

Definition raise {W A} (e : exn) : M W A := fun st => (st, Raised e).

Definition out_of_fuel {W A} : M W A := fun st => (st, OutOfFuel).

Definition bind {W A B} (m : M W A) (k : A -> M W B) : M W B :=
  fun st =>
    match m st with
    | (st', Returned a) => k a st'
    | (st', Raised e) => (st', Raised e)
    | (st', OutOfFuel) => (st', OutOfFuel)
    end.

(** [try: m  except C as ex: h ex], where [catches] is [isinstance(_, C)]. *)
Definition try_except {W A} (m : M W A) (catches : exn -> bool)
    (h : exn -> M W A) : M W A :=
  fun st =>
    match m st with
    | (st', Raised e) => if catches e then h e st' else (st', Raised e)
    | r => r
    end.

Declare Scope py_scope.
Delimit Scope py_scope with py.
Notation "x <- m ;; k" := (bind m (fun x => k))
  (at level 100, m at next level, right associativity) : py_scope.
Notation "m ;;; k" := (bind m (fun _ => k))
  (at level 100, right associativity) : py_scope.
Local Open Scope py_scope.

(** A call out of the module: move the world, extend the transcript. *)
Definition emit {W} (e : event) (w : W) (tr : list event) : state W :=
  State w (tr ++ [e]).

(** ** The module *)

(** Number of attempts to retry failed queries *)
Definition DB_RETRIES : Z := 5.

(** The object a [with db_cursor(...)] statement manages. *)
Record db_cursor : Type := { db_path : string; db_conn : option Connection }.

(** A [dict] whose order of insertion the code relies on ([keys()] and
    [values()] must line up): an association list with distinct keys. *)
Definition keys {A B} (d : list (A * B)) : list A := map fst d.
Definition values {A B} (d : list (A * B)) : list B := map snd d.

(** Truth value of an optional sequence: [None] and the empty sequence
    are falsy. *)
Definition truthy {A} (o : option (list A)) : bool :=
  match o with
  | Some (_ :: _) => true
  | _ => false
  end.

(** The loop of [_decode_utf8_values]: [n] items are left to iterate over
    and [i] is the index of the next one. *)
Fixpoint decode_loop (n i : nat) (values_list : list pyval) : list pyval :=
  match n with
  | O => values_list
  | S n' =>
      match values_list !! i with
      | None => values_list
      | Some v =>
          let values_list :=
            if type_is_str v then <[i:=v]> values_list else values_list in
          decode_loop n' (i + 1)%nat values_list
      end
  end.

(** Return a tuple of values with UTF-8 string values being decoded. *)
Definition _decode_utf8_values (values_list : list pyval) : list pyval :=
  decode_loop (length values_list) 0%nat values_list.

(** [enumerate(l)] *)
Definition enumerate {A} (l : list A) : list (nat * A) :=
  zip (seq 0 (length l)) l.

(** The inner loop of [db_select] and [db_query]:
    [row_data[column] = row[index]] for every column. *)
Fixpoint row_data_loop (cols : list (nat * string)) (row : list pyval)
    (row_data : gmap string pyval) : exn + gmap string pyval :=
  match cols with
  | [] => inr row_data
  | (index, column) :: rest =>
      match row !! index with
      | None => inl (IndexError "tuple index out of range")
      | Some v => row_data_loop rest row (<[column:=v]> row_data)
      end
  end.

(** The outer loop: one [row_data], built from an empty dict, is appended
    to [results] for every row. *)
Fixpoint results_loop (rows : list (list pyval)) (column_names : list string)
    (results : list (gmap string pyval)) : exn + list (gmap string pyval) :=
  match rows with
  | [] => inr results
  | row :: rest =>
      match row_data_loop (enumerate column_names) row ∅ with
      | inl e => inl e
      | inr row_data => results_loop rest column_names (results ++ [row_data])
      end
  end.

Section Sql.

Context {W : Type} (drv : Driver W).

(** *** Calls out of the module *)

(** [sqlite3.connect(db_path)] *)
Definition sqlite3_connect (db_path : string) : M W Connection :=
  fun st =>
    let '(w, r) := drv_connect drv db_path (st_world st) in
    let st' := emit (EvConnect db_path r) w (st_trace st) in
    match r with
    | inl e => (st', Raised e)
    | inr c => (st', Returned c)
    end.

(** [c.cursor()] *)
Definition connection_cursor (c : Connection) : M W Cursor :=
  fun st =>
    let '(w, cur) := drv_cursor drv c (st_world st) in
    (emit (EvCursor c cur) w (st_trace st), Returned cur).

(** [cur.execute(query, params)], which returns the cursor itself. *)
Definition cursor_dot_execute (cur : Cursor) (query : string)
    (params : list pyval) : M W Cursor :=
  fun st =>
    let '(w, r) := drv_execute drv cur query params (st_world st) in
    let st' := emit (EvExecute cur query params r) w (st_trace st) in
    match r with
    | Some e => (st', Raised e)
    | None => (st', Returned cur)
    end.

(** [cur.fetchall()] *)
Definition cursor_fetchall (cur : Cursor) : M W (list (list pyval)) :=
  fun st =>
    let '(w, rows) := drv_fetchall drv cur (st_world st) in
    (emit (EvFetchall cur rows) w (st_trace st), Returned rows).

(** [cur.description] *)
Definition cursor_description (cur : Cursor)
    : M W (option (list column_description)) :=
  fun st =>
    let d := drv_description drv cur (st_world st) in
    (emit (EvDescription cur d) (st_world st) (st_trace st), Returned d).

(** [cur.lastrowid] *)
Definition cursor_lastrowid (cur : Cursor) : M W pyval :=
  fun st =>
    let v := drv_lastrowid drv cur (st_world st) in
    (emit (EvLastrowid cur v) (st_world st) (st_trace st), Returned v).

(** [c.commit()] *)
Definition connection_commit (c : Connection) : M W unit :=
  fun st =>
    let '(w, r) := drv_commit drv c (st_world st) in
    let st' := emit (EvCommit c r) w (st_trace st) in
    match r with
    | Some e => (st', Raised e)
    | None => (st', Returned tt)
    end.

(** [c.close()] *)
Definition connection_close (c : Connection) : M W unit :=
  fun st =>
    (emit (EvClose c) (drv_close drv c (st_world st)) (st_trace st), Returned tt).

(** [logger.error(...)] *)
Definition logger_error (m : log_record) : M W unit :=
  fun st => (emit (EvLogError m) (st_world st) (st_trace st), Returned tt).

(** [time.sleep(secs)] *)
Definition time_sleep (secs : Z) : M W unit :=
  fun st =>
    (emit (EvSleep secs) (drv_sleep drv secs (st_world st)) (st_trace st),
     Returned tt).

(** [print(x)] *)
Definition print (x : printed) : M W unit :=
  fun st => (emit (EvPrint x) (st_world st) (st_trace st), Returned tt).

(** [assert b] *)
Definition py_assert (b : bool) : M W unit :=
  if b then ret tt else raise AssertionError.

(** [t[i]] on a tuple *)
Definition getitem (t : list pyval) (i : nat) : M W pyval :=
  match t !! i with
  | Some v => ret v
  | None => raise (IndexError "tuple index out of range")
  end.

(** [d[k]] on a dict *)
Definition dict_getitem (d : gmap string pyval) (k : string) : M W pyval :=
  match d !! k with
  | Some v => ret v
  | None => raise (KeyError k)
  end.

(** A computation without effects that may raise. *)
Definition lift {A} (r : exn + A) : M W A :=
  match r with
  | inl e => raise e
  | inr a => ret a
  end.

(** *** class db_cursor *)

Definition db_cursor__init__ (db_path : string) : db_cursor :=
  {| db_path := db_path; db_conn := None |}.

Definition db_cursor__enter__ (self : db_cursor) : M W (db_cursor * Cursor) :=
  c <- sqlite3_connect (db_path self) ;;
  let self := {| db_path := db_path self; db_conn := Some c |} in
  cursor <- connection_cursor c ;;
  ret (self, cursor).

(** Returns [None]: an exception of the body is never swallowed. *)
Definition db_cursor__exit__ (self : db_cursor) : M W unit :=
  match db_conn self with
  | Some c => connection_commit c ;;; connection_close c
  | None => raise (AttributeError "db_conn")
  end.

(** [with mgr as cursor: body].  [__exit__] runs when the body returns
    and when it raises; as it returns a falsy value the body's exception
    is raised again after it, unless [__exit__] itself raises. *)
Definition with_db_cursor {A} (mgr : db_cursor) (body : Cursor -> M W A)
    : M W A :=
  fun st =>
    match db_cursor__enter__ mgr st with
    | (st1, Returned (self, cursor)) =>
        match body cursor st1 with
        | (st2, Returned a) =>
            match db_cursor__exit__ self st2 with
            | (st3, Returned _) => (st3, Returned a)
            | (st3, Raised e) => (st3, Raised e)
            | (st3, OutOfFuel) => (st3, OutOfFuel)
            end
        | (st2, Raised e) =>
            match db_cursor__exit__ self st2 with
            | (st3, Returned _) => (st3, Raised e)
            | (st3, Raised e') => (st3, Raised e')
            | (st3, OutOfFuel) => (st3, OutOfFuel)
            end
        | (st2, OutOfFuel) => (st2, OutOfFuel)
        end
    | (st1, Raised e) => (st1, Raised e)
    | (st1, OutOfFuel) => (st1, OutOfFuel)
    end.

(** *** cursor_execute *)

(** One turn of the [while True] loop of [cursor_execute]: [inl] is the
    value the function returns, [inr] the counter the loop goes on with. *)
Definition cursor_execute_body (cursor : Cursor) (query : string)
    (params : list pyval) (i : Z) : M W (Cursor + Z) :=
  try_except
    (r <- cursor_dot_execute cursor query params ;; ret (inl r))
    is_OperationalError
    (fun ex =>
       let i := i + 1 in
       if (i =? DB_RETRIES)%Z then raise ex
       else
         logger_error
           (LogFormat "SQL query '%s' failed. %d retries remaining"
                      [PyStr query; PyInt (DB_RETRIES - i)]) ;;;
         logger_error (LogException ex) ;;;
         time_sleep 1 ;;;
         ret (inr i)).

Fixpoint cursor_execute_loop (fuel : nat) (cursor : Cursor) (query : string)
    (params : list pyval) (i : Z) : M W Cursor :=
  match fuel with
  | O => out_of_fuel
  | S fuel' =>
      r <- cursor_execute_body cursor query params i ;;
      match r with
      | inl v => ret v
      | inr i' => cursor_execute_loop fuel' cursor query params i'
      end
  end.

(** Function used to retry queries in case an error occurs *)
Definition cursor_execute (fuel : nat) (cursor : Cursor) (query : string)
    (params : option (list pyval)) : M W Cursor :=
  let i := 0 in
  let params := match params with None => [] | Some p => p end in
  cursor_execute_loop fuel cursor query params i.

(** *** The helpers *)

Definition db_insert (fuel : nat) (db_path table : string)
    (fields : list (string * pyval)) : M W pyval :=
  let columns := PyString.join ", " (keys fields) in
  let placeholders :=
    PyString.drop_last 2 (PyString.repeat "?, " (length fields)) in
  let field_values := _decode_utf8_values (values fields) in
  inserted_id <-
    with_db_cursor (db_cursor__init__ db_path) (fun cursor =>
      try_except
        (cursor_execute fuel cursor
           (PyString.format "insert into {0}({1}) values ({2})"
                            [table; columns; placeholders])
           (Some field_values) ;;;
         ret tt)
        is_IntegrityError
        (fun ex =>
           print (PrintStr columns) ;;;
           print (PrintTuple field_values) ;;;
           raise ex) ;;;
      cursor_lastrowid cursor) ;;
  ret inserted_id.

(** Update [table] with the values given in the dict [updated_fields] on
    the condition given with the [row] tuple. *)
Definition db_update (fuel : nat) (db_path table : string)
    (updated_fields : list (string * pyval)) (row : pyval * pyval)
    : M W unit :=
  let columns := PyString.join "=?, " (keys updated_fields) +:+ "=?" in
  let field_values := _decode_utf8_values (values updated_fields) in
  let condition_field := PyString.format "{0}=?" [py_str (fst row)] in
  let condition_value := [snd row] in
  with_db_cursor (db_cursor__init__ db_path) (fun cursor =>
    let query :=
      PyString.format "UPDATE {0} SET {1} WHERE {2}"
                      [table; columns; condition_field] in
    cursor_execute fuel cursor query (Some (field_values ++ condition_value)) ;;;
    ret tt).

Definition db_delete (fuel : nat) (db_path table field : string)
    (value : pyval) : M W unit :=
  with_db_cursor (db_cursor__init__ db_path) (fun cursor =>
    cursor_execute fuel cursor
      (PyString.format "delete from {0} where {1}=?" [table; field])
      (Some [value]) ;;;
    ret tt).

(** What [db_select] and [db_query] do with an executed cursor: fetch the
    rows and read the column names off the description. *)
Definition fetch_rows_and_names (cursor : Cursor)
    : M W (list (list pyval) * list string) :=
  rows <- cursor_fetchall cursor ;;
  description <- cursor_description cursor ;;
  column_names <-
    match description with
    | Some d => ret (map fst d)
    | None => raise (TypeError "'NoneType' object is not iterable")
    end ;;
  ret (rows, column_names).

Definition db_select (fuel : nat) (db_path table : string)
    (fields : option (list string)) (condition : option (list pyval))
    : M W (list (gmap string pyval)) :=
  let columns :=
    if truthy fields then PyString.join ", " (default [] fields) else "*" in
  fetched <-
    with_db_cursor (db_cursor__init__ db_path) (fun cursor =>
      qp <-
        (if truthy condition then
           let condition := default [] condition in
           py_assert (length condition =? 2)%nat ;;;
           condition_0 <- getitem condition 0 ;;
           condition_1 <- getitem condition 1 ;;
           ret (PyString.format "SELECT {0} FROM {1} where {2}=?"
                                [columns; table; py_str condition_0],
                [condition_1])
         else
           ret (PyString.format "SELECT {0} FROM {1}" [columns; table], [])) ;;
      cursor_execute fuel cursor (fst qp) (Some (snd qp)) ;;;
      fetch_rows_and_names cursor) ;;
  lift (results_loop (fst fetched) (snd fetched) []).

Definition db_query (fuel : nat) (db_path query : string)
    (params : list pyval) : M W (list (gmap string pyval)) :=
  fetched <-
    with_db_cursor (db_cursor__init__ db_path) (fun cursor =>
      cursor_execute fuel cursor query (Some params) ;;;
      fetch_rows_and_names cursor) ;;
  lift (results_loop (fst fetched) (snd fetched) []).

Definition add_field (db_path tablename : string)
    (field : gmap string pyval) : M W unit :=
  name <- dict_getitem field "name" ;;
  type <- dict_getitem field "type" ;;
  let query :=
    PyString.percent "ALTER TABLE %s ADD COLUMN %s %s"
                     [tablename; py_str name; py_str type] in
  with_db_cursor (db_cursor__init__ db_path) (fun cursor =>
    cursor_dot_execute cursor query [] ;;;
    ret tt).

End Sql.

(** ** A reference world: one process on a small SQL engine

    The driver below runs the statements the helpers emit on tables held
    in memory: enough of the engine to execute the module and to state
    what a statement does to the database.  Other processes appear as a
    schedule saying, for each coming statement, whether the file is
    locked when it runs. *)

Module Engine.

(** *** Lexing *)

Inductive token : Type :=
| TWord (s : string)
| TEq
| TParam
| TComma
| TLParen
| TRParen
| TStar.

#[global] Instance token_eq_dec : EqDecision token.
Proof. solve_decision. Defined.

Definition between (lo hi : nat) (c : ascii) : bool :=
  let n := nat_of_ascii c in (lo <=? n)%nat && (n <=? hi)%nat.

(** Letters, digits and the underscore. *)
Definition is_word_char (c : ascii) : bool :=
  between 65 90 c || between 97 122 c || between 48 57 c || Ascii.eqb c "_".

Definition is_space (c : ascii) : bool :=
  Ascii.eqb c " " || Ascii.eqb c "010".

Definition symbol (c : ascii) : option token :=
  if Ascii.eqb c "=" then Some TEq
  else if Ascii.eqb c "?" then Some TParam
  else if Ascii.eqb c "," then Some TComma
  else if Ascii.eqb c "(" then Some TLParen
  else if Ascii.eqb c ")" then Some TRParen
  else if Ascii.eqb c "*" then Some TStar
  else None.

(** End of the word read so far, if any. *)
Definition flush (word : string) (ts : list token) : list token :=
  if String.eqb word "" then ts else TWord word :: ts.

Definition is_digit (c : ascii) : bool := between 48 57 c.

(** [lex word s]: the tokens of [s], [word] being the characters of the
    word in progress.  A character outside the fragment is an error, and
    so is a word that starts with a digit: the fragment has no numbers. *)
Fixpoint lex (word : string) (s : string) : option (list token) :=
  match s with
  | EmptyString => Some (flush word [])
  | String c s' =>
      if is_word_char c then
        if String.eqb word "" && is_digit c then None
        else lex (word +:+ String c "") s'
      else if is_space c then flush word <$> lex "" s'
      else
        match symbol c with
        | Some t => (fun ts => flush word (t :: ts)) <$> lex "" s'
        | None => None
        end
  end.

Fixpoint all_word_chars (s : string) : bool :=
  match s with
  | EmptyString => true
  | String c s' => is_word_char c && all_word_chars s'
  end.

(** A name the fragment can carry: a word that does not start with a
    digit. *)
Definition is_identifier (s : string) : bool :=
  match s with
  | EmptyString => false
  | String c s' => is_word_char c && negb (is_digit c) && all_word_chars s'
  end.

(** *** Parsing *)

Inductive statement : Type :=
| Insert (table : string) (columns : list string) (placeholders : nat)
| Update (table : string) (columns : list string) (where_column : string)
| Delete (table : string) (where_column : string)
| Select (columns : option (list string)) (table : string)
    (where_column : option string)
| AlterAddColumn (table : string) (name type : string).

Definition to_upper_char (c : ascii) : ascii :=
  if between 97 122 c then ascii_of_nat (nat_of_ascii c - 32) else c.

Fixpoint to_upper (s : string) : string :=
  match s with
  | EmptyString => EmptyString
  | String c s' => String (to_upper_char c) (to_upper s')
  end.

(** Keywords are matched without regard to case. *)
Definition keyword (kw : string) (t : token) : bool :=
  match t with
  | TWord w => String.eqb (to_upper w) kw
  | _ => false
  end.

(** [c1=?, c2=?, ...]: at least one assignment. *)
Fixpoint parse_assignments (ts : list token)
    : option (list string * list token) :=
  match ts with
  | TWord c :: TEq :: TParam :: rest =>
      match rest with
      | TComma :: rest' =>
          match parse_assignments rest' with
          | Some (cs, r) => Some (c :: cs, r)
          | None => None
          end
      | _ => Some ([c], rest)
      end
  | _ => None
  end.

(** [c1, c2, ...]: at least one name. *)
Fixpoint parse_names (ts : list token) : option (list string * list token) :=
  match ts with
  | TWord c :: rest =>
      match rest with
      | TComma :: rest' =>
          match parse_names rest' with
          | Some (cs, r) => Some (c :: cs, r)
          | None => None
          end
      | _ => Some ([c], rest)
      end
  | _ => None
  end.

(** [?, ?, ...]: at least one placeholder. *)
Fixpoint parse_placeholders (ts : list token) : option (nat * list token) :=
  match ts with
  | TParam :: rest =>
      match rest with
      | TComma :: rest' =>
          match parse_placeholders rest' with
          | Some (n, r) => Some (S n, r)
          | None => None
          end
      | _ => Some (1%nat, rest)
      end
  | _ => None
  end.

(** [where c=?] at the end of a statement, or nothing. *)
Definition parse_where (ts : list token) : option (option string) :=
  match ts with
  | [] => Some None
  | [kw; TWord c; TEq; TParam] =>
      if keyword "WHERE" kw then Some (Some c) else None
  | _ => None
  end.

Definition parse_insert (ts : list token) : option statement :=
  match ts with
  | kw1 :: kw2 :: TWord t :: TLParen :: rest =>
      if keyword "INSERT" kw1 && keyword "INTO" kw2 then
        match parse_names rest with
        | Some (cols, TRParen :: kw3 :: TLParen :: rest') =>
            if keyword "VALUES" kw3 then
              match parse_placeholders rest' with
              | Some (n, [TRParen]) => Some (Insert t cols n)
              | _ => None
              end
            else None
        | _ => None
        end
      else None
  | _ => None
  end.

Definition parse_update (ts : list token) : option statement :=
  match ts with
  | kw1 :: TWord t :: kw2 :: rest =>
      if keyword "UPDATE" kw1 && keyword "SET" kw2 then
        match parse_assignments rest with
        | Some (cols, rest') =>
            match parse_where rest' with
            | Some (Some c) => Some (Update t cols c)
            | _ => None
            end
        | None => None
        end
      else None
  | _ => None
  end.

Definition parse_delete (ts : list token) : option statement :=
  match ts with
  | kw1 :: kw2 :: TWord t :: rest =>
      if keyword "DELETE" kw1 && keyword "FROM" kw2 then
        match parse_where rest with
        | Some (Some c) => Some (Delete t c)
        | _ => None
        end
      else None
  | _ => None
  end.

Definition parse_select (ts : list token) : option statement :=
  match ts with
  | kw1 :: TStar :: kw2 :: TWord t :: rest =>
      if keyword "SELECT" kw1 && keyword "FROM" kw2 then
        Select None t <$> parse_where rest
      else None
  | kw1 :: rest =>
      if keyword "SELECT" kw1 then
        match parse_names rest with
        | Some (cols, kw2 :: TWord t :: rest') =>
            if keyword "FROM" kw2 then
              Select (Some cols) t <$> parse_where rest'
            else None
        | _ => None
        end
      else None
  | _ => None
  end.

Definition parse_alter (ts : list token) : option statement :=
  match ts with
  | [kw1; kw2; TWord t; kw3; kw4; TWord name; TWord type] =>
      if keyword "ALTER" kw1 && keyword "TABLE" kw2
         && keyword "ADD" kw3 && keyword "COLUMN" kw4
      then Some (AlterAddColumn t name type)
      else None
  | _ => None
  end.

Definition parse_tokens (ts : list token) : option statement :=
  match ts with
  | kw :: _ =>
      if keyword "INSERT" kw then parse_insert ts
      else if keyword "UPDATE" kw then parse_update ts
      else if keyword "DELETE" kw then parse_delete ts
      else if keyword "SELECT" kw then parse_select ts
      else if keyword "ALTER" kw then parse_alter ts
      else None
  | [] => None
  end.

Definition parse (query : string) : option statement :=
  lex "" query ≫= parse_tokens.

(** *** Tables *)

(** A table: its column names, the columns declared [UNIQUE], and its
    rows, each a rowid with one cell per column. *)
Record table : Type := {
  tbl_columns : list string;
  tbl_unique : list string;
  tbl_rows : list (Z * list pyval)
}.

Abbreviation database := (gmap string table).

(** Fallible steps of the engine. *)
#[local] Instance exn_ret : MRet (sum exn) := fun _ a => inr a.
#[local] Instance exn_bind : MBind (sum exn) := fun _ _ f m =>
  match m with
  | inl e => inl e
  | inr a => f a
  end.

Definition or_raise {A} (o : option A) (e : exn) : exn + A :=
  match o with
  | Some a => inr a
  | None => inl e
  end.

Definition check (b : bool) (e : exn) : exn + unit :=
  if b then inr tt else inl e.

(** SQL's [=]: [NULL] equals nothing, values of different types differ. *)
Definition sql_eq (a b : pyval) : bool :=
  match a, b with
  | PyInt x, PyInt y => (x =? y)%Z
  | PyStr x, PyStr y => String.eqb x y
  | _, _ => false
  end.

Fixpoint column_index (columns : list string) (c : string) : option nat :=
  match columns with
  | [] => None
  | c' :: rest =>
      if String.eqb c' c then Some 0%nat else S <$> column_index rest c
  end.

Definition cell (cells : list pyval) (j : nat) : pyval :=
  default PyNone (cells !! j).

(** The rows a [where c=?] keeps. *)
Definition matches (j : nat) (v : pyval) (r : Z * list pyval) : bool :=
  sql_eq (cell r.2 j) v.

Definition assign (cells : list pyval) (jv : nat * pyval) : list pyval :=
  <[jv.1:=jv.2]> cells.

Fixpoint distinct_non_null (vs : list pyval) : bool :=
  match vs with
  | [] => true
  | v :: rest => negb (existsb (sql_eq v) rest) && distinct_non_null rest
  end.

Definition unique_ok (tb : table) : bool :=
  forallb
    (fun u =>
       match column_index (tbl_columns tb) u with
       | Some j => distinct_non_null (map (fun r => cell r.2 j) (tbl_rows tb))
       | None => true
       end)
    (tbl_unique tb).

Definition next_rowid (tb : table) : Z :=
  1 + foldr Z.max 0 (map fst (tbl_rows tb)).

Definition with_rows (tb : table) (rows : list (Z * list pyval)) : table :=
  {| tbl_columns := tbl_columns tb; tbl_unique := tbl_unique tb;
     tbl_rows := rows |}.

Definition no_such_table (t : string) : exn :=
  OperationalError ("no such table: " +:+ t).
Definition no_such_column : exn := OperationalError "no such column".
Definition bad_bindings : exn :=
  ProgrammingError "Incorrect number of bindings supplied.".
Definition unique_failed : exn := IntegrityError "UNIQUE constraint failed".

(** What a statement leaves behind: the database, and on the cursor the
    result rows, the description and, after an insert, the new rowid. *)
Record effect : Type := {
  eff_db : database;
  eff_rows : list (list pyval);
  eff_description : option (list column_description);
  eff_lastrowid : option Z
}.

Definition changed (db : database) : effect :=
  {| eff_db := db; eff_rows := []; eff_description := None;
     eff_lastrowid := None |}.

Definition exec_insert (t : string) (cols : list string) (n : nat)
    (params : list pyval) (db : database) : exn + effect :=
  tb ← or_raise (db !! t) (no_such_table t);
  idxs ← or_raise (mapM (column_index (tbl_columns tb)) cols) no_such_column;
  _ ← check (n =? length cols)%nat
        (OperationalError "values do not match the columns");
  _ ← check (length params =? n)%nat bad_bindings;
  let cells :=
    foldl assign (replicate (length (tbl_columns tb)) PyNone)
          (zip idxs params) in
  let rowid := next_rowid tb in
  let tb' := with_rows tb (tbl_rows tb ++ [(rowid, cells)]) in
  _ ← check (unique_ok tb') unique_failed;
  mret {| eff_db := <[t:=tb']> db; eff_rows := [];
          eff_description := None; eff_lastrowid := Some rowid |}.

Definition update_row (j : nat) (v : pyval) (idxs : list nat)
    (new : list pyval) (r : Z * list pyval) : Z * list pyval :=
  if matches j v r then (r.1, foldl assign r.2 (zip idxs new)) else r.

Definition exec_update (t : string) (cols : list string) (c : string)
    (params : list pyval) (db : database) : exn + effect :=
  tb ← or_raise (db !! t) (no_such_table t);
  idxs ← or_raise (mapM (column_index (tbl_columns tb)) cols) no_such_column;
  j ← or_raise (column_index (tbl_columns tb) c) no_such_column;
  _ ← check (length params =? length cols + 1)%nat bad_bindings;
  let new := take (length cols) params in
  let v := default PyNone (last params) in
  let tb' := with_rows tb (map (update_row j v idxs new) (tbl_rows tb)) in
  _ ← check (unique_ok tb') unique_failed;
  mret (changed (<[t:=tb']> db)).

Definition exec_delete (t c : string) (params : list pyval) (db : database)
    : exn + effect :=
  tb ← or_raise (db !! t) (no_such_table t);
  j ← or_raise (column_index (tbl_columns tb) c) no_such_column;
  _ ← check (length params =? 1)%nat bad_bindings;
  let v := default PyNone (last params) in
  let tb' :=
    with_rows tb (filter (fun r => matches j v r = false) (tbl_rows tb)) in
  mret (changed (<[t:=tb']> db)).

Definition exec_select (cols : option (list string)) (t : string)
    (c : option string) (params : list pyval) (db : database)
    : exn + effect :=
  tb ← or_raise (db !! t) (no_such_table t);
  let names := default (tbl_columns tb) cols in
  idxs ← or_raise (mapM (column_index (tbl_columns tb)) names) no_such_column;
  kept ←
    match c with
    | None =>
        _ ← check (length params =? 0)%nat bad_bindings;
        mret (tbl_rows tb)
    | Some c =>
        j ← or_raise (column_index (tbl_columns tb) c) no_such_column;
        _ ← check (length params =? 1)%nat bad_bindings;
        let v := default PyNone (last params) in
        mret (filter (fun r => matches j v r = true) (tbl_rows tb))
    end;
  mret {| eff_db := db;
          eff_rows := map (fun r : Z * list pyval => map (cell r.2) idxs) kept;
          eff_description :=
            Some (map (fun name => (name, replicate 6 PyNone)) names);
          eff_lastrowid := None |}.

Definition exec_alter (t name : string) (params : list pyval) (db : database)
    : exn + effect :=
  tb ← or_raise (db !! t) (no_such_table t);
  _ ← check (negb (bool_decide (name ∈ tbl_columns tb)))
        (OperationalError ("duplicate column name: " +:+ name));
  _ ← check (length params =? 0)%nat bad_bindings;
  let tb' :=
    {| tbl_columns := tbl_columns tb ++ [name];
       tbl_unique := tbl_unique tb;
       tbl_rows :=
         map (fun r : Z * list pyval => (r.1, r.2 ++ [PyNone])) (tbl_rows tb) |} in
  mret (changed (<[t:=tb']> db)).

Definition exec (s : statement) (params : list pyval) (db : database)
    : exn + effect :=
  match s with
  | Insert t cols n => exec_insert t cols n params db
  | Update t cols c => exec_update t cols c params db
  | Delete t c => exec_delete t c params db
  | Select cols t c => exec_select cols t c params db
  | AlterAddColumn t name _ => exec_alter t name params db
  end.

(** The engine on a query string. *)
Definition run_query (query : string) (params : list pyval) (db : database)
    : exn + effect :=
  s ← or_raise (parse query) (OperationalError "syntax error");
  exec s params db.

(** *** The world *)

(** The database files by path; the open connection with its path and the
    database as its transaction sees it; for each coming statement,
    whether another process holds the lock; the clock; what the cursor
    holds. *)
Record world : Type := World {
  disk : gmap string database;
  session : option (Connection * string * database);
  busy : list bool;
  clock : Z;
  cur_rows : list (list pyval);
  cur_description : option (list column_description);
  cur_lastrowid : pyval;
  next_handle : nat
}.

(** The content of a file; a file that does not exist yet is an empty
    database. *)
Definition db_at (d : gmap string database) (path : string) : database :=
  default ∅ (d !! path).

Definition connect (path : string) (w : world) : world * (exn + Connection) :=
  (World (disk w) (Some (next_handle w, path, db_at (disk w) path)) (busy w)
         (clock w) [] None PyNone (S (next_handle w)),
   inr (next_handle w)).

Definition new_cursor (c : Connection) (w : world) : world * Cursor := (w, c).

Definition locked : exn := OperationalError "database is locked".

Definition execute (cur : Cursor) (query : string) (params : list pyval)
    (w : world) : world * option exn :=
  let is_locked := hd false (busy w) in
  let w :=
    World (disk w) (session w) (tl (busy w)) (clock w) (cur_rows w)
          (cur_description w) (cur_lastrowid w) (next_handle w) in
  match session w with
  | None =>
      (w, Some (ProgrammingError "Cannot operate on a closed database."))
  | Some (c, path, db) =>
      if is_locked then (w, Some locked)
      else
        match run_query query params db with
        | inl e => (w, Some e)
        | inr eff =>
            (World (disk w) (Some (c, path, eff_db eff)) (busy w) (clock w)
                   (eff_rows eff) (eff_description eff)
                   (from_option PyInt (cur_lastrowid w) (eff_lastrowid eff))
                   (next_handle w),
             None)
        end
  end.

Definition fetchall (cur : Cursor) (w : world) : world * list (list pyval) :=
  (World (disk w) (session w) (busy w) (clock w) [] (cur_description w)
         (cur_lastrowid w) (next_handle w),
   cur_rows w).

(** Writes the transaction to the file; with no connection open there is
    nothing to write. *)
Definition commit (c : Connection) (w : world) : world * option exn :=
  match session w with
  | Some (_, path, db) =>
      (World (<[path:=db]> (disk w)) (session w) (busy w) (clock w)
             (cur_rows w) (cur_description w) (cur_lastrowid w)
             (next_handle w),
       None)
  | None => (w, None)
  end.

(** What was not committed is lost. *)
Definition close (c : Connection) (w : world) : world :=
  World (disk w) None (busy w) (clock w) (cur_rows w) (cur_description w)
        (cur_lastrowid w) (next_handle w).

Definition sleep (secs : Z) (w : world) : world :=
  World (disk w) (session w) (busy w) (clock w + secs) (cur_rows w)
        (cur_description w) (cur_lastrowid w) (next_handle w).

Definition driver : Driver world := {|
  drv_connect := connect;
  drv_cursor := new_cursor;
  drv_execute := execute;
  drv_fetchall := fetchall;
  drv_description := fun _ w => cur_description w;
  drv_lastrowid := fun _ w => cur_lastrowid w;
  drv_commit := commit;
  drv_close := close;
  drv_sleep := sleep
|}.

(** A world with the given files, no connection and the given schedule. *)
Definition boot (d : gmap string database) (schedule : list bool) : world :=
  World d None schedule 0 [] None PyNone 0.

(** *** What an update may touch *)

(** The tokens of [c1=?, c2=?, ...]. *)
Fixpoint assignment_tokens (cols : list string) : list token :=
  match cols with
  | [] => []
  | [c] => [TWord c; TEq; TParam]
  | c :: rest => TWord c :: TEq :: TParam :: TComma :: assignment_tokens rest
  end.

(** The row [r] of the table [tb] is one that [where c=?] selects when
    the parameter is [v]. *)
Definition targeted (tb : table) (c : string) (v : pyval)
    (r : Z * list pyval) : Prop :=
  ∃ j, column_index (tbl_columns tb) c = Some j ∧ matches j v r = true.

(** [r'] is what an update of the columns [cols] on the condition
    [c = v] may make of the row [r]: the same row when the condition does
    not select it, and in any case a row with the same rowid, as many
    cells, and the same values in the columns that are not in [cols]. *)
Definition row_frame (tb : table) (cols : list string) (c : string)
    (v : pyval) (r r' : Z * list pyval) : Prop :=
  r'.1 = r.1
  ∧ length r'.2 = length r.2
  ∧ (¬ targeted tb c v r → r' = r)
  ∧ ∀ k name,
      tbl_columns tb !! k = Some name → name ∉ cols → r'.2 !! k = r.2 !! k.

(** The same for a table, which may also be absent before and after. *)
Definition table_frame (cols : list string) (c : string) (v : pyval)
    (before after : option table) : Prop :=
  match before, after with
  | None, None => True
  | Some tb, Some tb' =>
      tbl_columns tb' = tbl_columns tb
      ∧ tbl_unique tb' = tbl_unique tb
      ∧ Forall2 (row_frame tb cols c v) (tbl_rows tb) (tbl_rows tb')
  | _, _ => False
  end.

End Engine.

(** ** Reading a run *)

(** *** What the driver answers to repeated attempts *)

Section Attempts.

Context {W : Type} (drv : Driver W).
Context (cur : Cursor) (query : string) (params : list pyval).

(** The world a failed attempt leaves to the next one: the statement has
    run and one second has been slept. *)
Definition next_world (w : W) : W :=
  drv_sleep drv 1 (drv_execute drv cur query params w).1.

(** The world in which attempt [n] (counted from 0) runs when the
    attempts before it failed and were retried. *)
Fixpoint world_before (n : nat) (w : W) : W :=
  match n with
  | O => w
  | S n' => world_before n' (next_world w)
  end.

(** What attempt [n] answers: [None] when the statement runs, [Some e]
    when it raises [e]. *)
Definition attempt (n : nat) (w : W) : option exn :=
  (drv_execute drv cur query params (world_before n w)).2.

(** The world after attempt [n]. *)
Definition world_after (n : nat) (w : W) : W :=
  (drv_execute drv cur query params (world_before n w)).1.

(** Attempt [n] fails on a transient operational error. *)
Definition transient (n : nat) (w : W) : Prop :=
  ∃ e, attempt n w = Some e ∧ is_OperationalError e = true.

(** What a failed attempt that is retried leaves in the transcript when
    the counter [i] was incremented to [i + 1]: the call, the message with
    the retries that remain, the exception, the sleep. *)
Definition retried (i : Z) (e : exn) : list event :=
  [EvExecute cur query params (Some e);
   EvLogError (LogFormat "SQL query '%s' failed. %d retries remaining"
                         [PyStr query; PyInt (DB_RETRIES - (i + 1))]);
   EvLogError (LogException e);
   EvSleep 1].

(** The transcript of [n] retried attempts from the world [w], the counter
    being [i] at the first. *)
Fixpoint retries (i : Z) (n : nat) (w : W) : list event :=
  match n with
  | O => []
  | S n' =>
      match (drv_execute drv cur query params w).2 with
      | Some e => retried i e
      | None => []
      end ++ retries (i + 1) n' (next_world w)
  end.

End Attempts.

(** *** Counting in a transcript *)

Definition is_execute (e : event) : bool :=
  match e with EvExecute _ _ _ _ => true | _ => false end.

Definition is_failed_execute (e : event) : bool :=
  match e with EvExecute _ _ _ (Some _) => true | _ => false end.

Definition is_retry_log (e : event) : bool :=
  match e with
  | EvLogError (LogFormat msg _) =>
      String.eqb msg "SQL query '%s' failed. %d retries remaining"
  | _ => false
  end.

Definition is_sleep (e : event) : bool :=
  match e with EvSleep _ => true | _ => false end.


Definition count (p : event -> bool) (tr : list event) : nat :=
  length (filter (fun e => p e = true) tr).

(** An event that uses the cursor [cur] or stays inside the process: not
    one that opens, commits or closes a connection. *)
Definition within (cur : Cursor) (e : event) : Prop :=
  match e with
  | EvExecute c _ _ _ | EvFetchall c _ | EvDescription c _
  | EvLastrowid c _ => c = cur
  | EvLogError _ | EvSleep _ | EvPrint _ => True
  | EvConnect _ _ | EvCursor _ _ | EvCommit _ _ | EvClose _ => False
  end.

(** The transcript of a call that opens a connection on [path], uses only
    the cursor of that connection, commits the connection and then closes
    it. *)
Definition scoped (path : string) (tr : list event) : Prop :=
  ∃ (c : Connection) (cur : Cursor) (mid : list event),
    tr = EvConnect path (inr c) :: EvCursor c cur :: mid
         ++ [EvCommit c None; EvClose c]
    ∧ Forall (within cur) mid.



(** [m] is the mapping of the row [row] under the column names [names]:
    its keys are the names, and a name is mapped to the value of the row
    at the position of the name, the last one if the name comes more
    than once. *)
Definition row_mapping (names : list string) (row : list pyval)
    (m : gmap string pyval) : Prop :=
  dom m = list_to_set names
  ∧ ∀ j name,
      names !! j = Some name →
      (∀ j', (j < j')%nat → names !! j' ≠ Some name) →
      is_Some (row !! j) ∧ m !! name = row !! j.

(** *** What a computation adds to the transcript *)

(** [m] comes to an end, and every event it adds to the transcript
    satisfies [P]. *)
Definition confined {W A} (P : event → Prop) (m : M W A) : Prop :=
  ∀ st, ∃ mid,
    st_trace (m st).1 = st_trace st ++ mid
    ∧ Forall P mid
    ∧ (m st).2 ≠ OutOfFuel.

(** The events of the retry loop on a statement: attempts of that
    statement on that cursor, log entries and sleeps. *)
Definition retrying (cur : Cursor) (query : string) (params : list pyval)
    (e : event) : Prop :=
  match e with
  | EvExecute c q p _ => c = cur ∧ q = query ∧ p = params
  | EvLogError _ | EvSleep _ => True
  | _ => False
  end.

(** ** A database to run the module on *)

Module Example.

Import Engine.

Definition games : table := {|
  tbl_columns := ["id"; "name"; "slug"];
  tbl_unique := ["slug"];
  tbl_rows := [(1, [PyInt 1; PyStr "Quake"; PyStr "quake"]);
               (2, [PyInt 2; PyStr "Doom"; PyStr "doom"])]
|}.

Definition files : gmap string database :=
  {["pga.db" := {["games" := games]}]}.

(** The files above with no connection open; [schedule] says which of the
    coming statements find the file locked. *)
Definition idle (schedule : list bool) : world := boot files schedule.

(** The same with connection [0] open on [pga.db]; its cursor is [0]. *)
Definition connected (schedule : list bool) : world :=
  (connect "pga.db" (idle schedule)).1.

End Example.

(** ** More to read in a run *)

Definition is_commit (e : event) : bool :=
  match e with EvCommit _ _ => true | _ => false end.

Definition is_close (e : event) : bool :=
  match e with EvClose _ => true | _ => false end.

(** What was printed, in the order of the calls of [print]. *)
Fixpoint prints (tr : list event) : list printed :=
  match tr with
  | [] => []
  | EvPrint x :: tr => x :: prints tr
  | _ :: tr => prints tr
  end.

(** An attempt of a statement that raised an integrity error. *)
Definition is_integrity_failure (e : event) : bool :=
  match e with
  | EvExecute _ _ _ (Some ex) => is_IntegrityError ex
  | _ => false
  end.

(** An event of an attempt that was retried: the statement raising an
    operational error on the cursor, a log entry or a sleep. *)
Definition failed_retry (cur : Cursor) (query : string) (params : list pyval)
    (e : event) : Prop :=
  match e with
  | EvExecute c q p r =>
      c = cur ∧ q = query ∧ p = params
      ∧ ∃ ex, r = Some ex ∧ is_OperationalError ex = true
  | EvLogError _ | EvSleep _ => True
  | _ => False
  end.

(** If the event is the execution of a statement, the statement is
    [query] with the parameters [params]. *)
Definition statement_is (query : string) (params : list pyval) (e : event)
    : Prop :=
  match e with
  | EvExecute _ q p _ => q = query ∧ p = params
  | _ => True
  end.

(** What a call returns or raises when the last thing it did was to run
    a statement that answered [r]. *)
Definition answer (cur : Cursor) (r : option exn) : outcome Cursor :=
  match r with
  | None => Returned cur
  | Some e => Raised e
  end.

(** A call that raised [e] at the commit of the connection [c] and never
    closed it. *)
Definition left_open {W A} (c : Connection) (e : exn)
    (run : state W * outcome A) : Prop :=
  run.2 = Raised e
  ∧ last (st_trace run.1) = Some (EvCommit c (Some e))
  ∧ count is_close (st_trace run.1) = 0%nat.

(** ** Worlds where the connection fails *)

Module Faults.

Import Engine.

Definition no_file : exn := OperationalError "unable to open database file".

(** The engine when the file cannot be opened. *)
Definition offline : Driver world := {|
  drv_connect := fun _ w => (w, inl no_file);
  drv_cursor := new_cursor;
  drv_execute := execute;
  drv_fetchall := fetchall;
  drv_description := fun _ w => cur_description w;
  drv_lastrowid := fun _ w => cur_lastrowid w;
  drv_commit := commit;
  drv_close := close;
  drv_sleep := sleep
|}.

(** The engine when another process holds the lock at every commit. *)
Definition commit_locked : Driver world := {|
  drv_connect := connect;
  drv_cursor := new_cursor;
  drv_execute := execute;
  drv_fetchall := fetchall;
  drv_description := fun _ w => cur_description w;
  drv_lastrowid := fun _ w => cur_lastrowid w;
  drv_commit := fun _ w => (w, Some locked);
  drv_close := close;
  drv_sleep := sleep
|}.

End Faults.

(** ** What a statement makes of a table *)

Module Effects.

Import Engine.

(** Every row of the table has one cell for each column. *)
Definition well_formed (tb : table) : Prop :=
  Forall (λ r : Z * list pyval, length r.2 = length (tbl_columns tb))
         (tbl_rows tb).

(** The row [r] holds, in the column of each key of [fields], the value
    that goes with the key. *)
Definition holds (tb : table) (fields : list (string * pyval))
    (r : Z * list pyval) : Prop :=
  ∀ k v, (k, v) ∈ fields →
         ∃ j, column_index (tbl_columns tb) k = Some j ∧ r.2 !! j = Some v.

(** The row [r] is [NULL] in every column that is not a key of
    [fields]. *)
Definition null_elsewhere (tb : table) (fields : list (string * pyval))
    (r : Z * list pyval) : Prop :=
  ∀ j name, tbl_columns tb !! j = Some name → name ∉ keys fields →
            r.2 !! j = Some PyNone.

(** The rows a [SELECT] with the condition [c] gives: all of them for no
    condition, and for [(column, value)] those where the column equals
    the value. *)
Definition selected (tb : table) (c : option (string * pyval))
    : list (Z * list pyval) :=
  match c with
  | None => tbl_rows tb
  | Some (column, v) =>
      match column_index (tbl_columns tb) column with
      | Some j => filter (λ r, matches j v r = true) (tbl_rows tb)
      | None => []
      end
  end.

(** The mapping [m] shows the columns [names] of the row [r]: its keys
    are the names, and each is mapped to the cell of its column. *)
Definition shows (tb : table) (names : list string) (r : Z * list pyval)
    (m : gmap string pyval) : Prop :=
  dom m = list_to_set names
  ∧ ∀ name j,
      name ∈ names → column_index (tbl_columns tb) name = Some j →
      m !! name = Some (cell r.2 j).

(** The table with one more column, after the others, that is [NULL] in
    every row. *)
Definition with_column (tb : table) (name : string) : table :=
  {| tbl_columns := tbl_columns tb ++ [name];
     tbl_unique := tbl_unique tb;
     tbl_rows :=
       map (λ r : Z * list pyval, (r.1, r.2 ++ [PyNone])) (tbl_rows tb) |}.

(** The condition at the end of a [SELECT], if there is one, and its
    tokens. *)
Definition where_text (c : option string) : string :=
  match c with
  | None => ""
  | Some c => " where " +:+ c +:+ "=?"
  end.

Definition where_tokens (c : option string) : list token :=
  match c with
  | None => []
  | Some c => [TWord "where"; TWord c; TEq; TParam]
  end.

(** The tokens of [c1, c2, ...] and of [?, ?, ...]. *)
Fixpoint name_tokens (names : list string) : list token :=
  match names with
  | [] => []
  | [c] => [TWord c]
  | c :: rest => TWord c :: TComma :: name_tokens rest
  end.

Fixpoint placeholder_tokens (n : nat) : list token :=
  match n with
  | O => []
  | 1%nat => [TParam]
  | S n' => TParam :: TComma :: placeholder_tokens n'
  end.

End Effects.

(** * Properties *)

(** ** The decoding of values changes nothing *)

Lemma decode_loop_id (n i : nat) (l : list pyval) : decode_loop n i l = l.
Proof.
  revert i l. induction n as [|n IH]; intros i l; simpl; [done|].
  destruct (l !! i) as [v|] eqn:Hv; [|done].
  destruct (type_is_str v); [|apply IH].
  rewrite IH. by apply list_insert_id.
Qed.

Lemma decode_utf8_values_id (l : list pyval) : _decode_utf8_values l = l.
Proof. apply decode_loop_id. Qed.

(** ** The retry loop *)

Section Retry.

Context {W : Type} (drv : Driver W).
Context (cur : Cursor) (query : string) (params : list pyval).

#[local] Abbreviation loop := (cursor_execute_loop drv).
#[local] Abbreviation run_statement := (drv_execute drv cur query params).

(** The four ways one turn of the loop can go. *)

Lemma loop_returns fuel i w tr w' :
  run_statement w = (w', None) →
  loop (S fuel) cur query params i (State w tr)
  = (State w' (tr ++ [EvExecute cur query params None]), Returned cur).
Proof.
  intros He. simpl.
  unfold bind, cursor_execute_body, try_except, bind, cursor_dot_execute.
  simpl. by rewrite He.
Qed.

Lemma loop_propagates fuel i w tr w' e :
  run_statement w = (w', Some e) →
  is_OperationalError e = false →
  loop (S fuel) cur query params i (State w tr)
  = (State w' (tr ++ [EvExecute cur query params (Some e)]), Raised e).
Proof.
  intros He Hop. simpl.
  unfold bind, cursor_execute_body, try_except, bind, cursor_dot_execute.
  simpl. rewrite He. simpl. by rewrite Hop.
Qed.

Lemma loop_gives_up fuel i w tr w' e :
  run_statement w = (w', Some e) →
  is_OperationalError e = true →
  i + 1 = DB_RETRIES →
  loop (S fuel) cur query params i (State w tr)
  = (State w' (tr ++ [EvExecute cur query params (Some e)]), Raised e).
Proof.
  intros He Hop Hi. simpl.
  unfold bind, cursor_execute_body, try_except, bind, cursor_dot_execute.
  simpl. rewrite He. simpl. rewrite Hop.
  by rewrite (proj2 (Z.eqb_eq _ _) Hi).
Qed.

Lemma loop_retries fuel i w tr w' e :
  run_statement w = (w', Some e) →
  is_OperationalError e = true →
  i + 1 ≠ DB_RETRIES →
  loop (S fuel) cur query params i (State w tr)
  = loop fuel cur query params (i + 1)
      (State (drv_sleep drv 1 w') (tr ++ retried cur query params i e)).
Proof.
  intros He Hop Hi. simpl.
  unfold bind at 1.
  unfold cursor_execute_body, try_except, bind, cursor_dot_execute.
  simpl. rewrite He. simpl. rewrite Hop.
  rewrite (proj2 (Z.eqb_neq _ _) Hi).
  unfold logger_error, time_sleep, ret, emit, retried. simpl.
  by rewrite <- !app_assoc.
Qed.

(** [n] transient failures in a row, none of them the last the counter
    allows, take the loop [n] turns further. *)
Lemma loop_after_retries n : ∀ fuel i w tr,
  0 ≤ i → i + Z.of_nat n < DB_RETRIES →
  (∀ k, (k < n)%nat → transient drv cur query params k w) →
  loop (n + fuel) cur query params i (State w tr)
  = loop fuel cur query params (i + Z.of_nat n)
      (State (world_before drv cur query params n w)
             (tr ++ retries drv cur query params i n w)).
Proof.
  induction n as [|n IH]; intros fuel i w tr Hi Hlt Hfail.
  - simpl. by rewrite Z.add_0_r, app_nil_r.
  - destruct (Hfail 0%nat) as (e & He & Hop); [lia|].
    unfold attempt in He. simpl in He.
    destruct (run_statement w) as [w' r] eqn:Hrun. simpl in He. subst r.
    replace (S n + fuel)%nat with (S (n + fuel)) by lia.
    rewrite (loop_retries _ _ _ _ _ _ Hrun Hop) by lia.
    rewrite IH; [|lia|lia|].
    + simpl. unfold next_world. rewrite Hrun. simpl.
      rewrite <- app_assoc.
      by replace (i + 1 + Z.of_nat n) with (i + Z.pos (Pos.of_succ_nat n))
        by lia.
    + intros k Hk. specialize (Hfail (S k) ltac:(lia)).
      unfold transient, attempt in *. simpl in Hfail.
      unfold next_world in Hfail. by rewrite Hrun in Hfail.
Qed.

(** With fuel for [DB_RETRIES] turns the loop always comes to an end. *)
Lemma loop_terminates fuel : ∀ i st,
  0 ≤ i < DB_RETRIES → (Z.to_nat (DB_RETRIES - i) ≤ fuel)%nat →
  (loop fuel cur query params i st).2 ≠ OutOfFuel.
Proof.
  induction fuel as [|fuel IH]; intros i [w tr] Hi Hfuel.
  - unfold DB_RETRIES in *. lia.
  - destruct (run_statement w) as [w' [e|]] eqn:Hrun.
    + destruct (is_OperationalError e) eqn:Hop.
      * destruct (decide (i + 1 = DB_RETRIES)) as [Hlast|Hmore].
        -- by rewrite (loop_gives_up _ _ _ _ _ _ Hrun Hop Hlast).
        -- rewrite (loop_retries _ _ _ _ _ _ Hrun Hop Hmore).
           apply IH; unfold DB_RETRIES in *; lia.
      * by rewrite (loop_propagates _ _ _ _ _ _ Hrun Hop).
    + by rewrite (loop_returns _ _ _ _ _ Hrun).
Qed.

(** The counts of a transcript of retried attempts. *)
Lemma count_app p (l1 l2 : list event) :
  count p (l1 ++ l2) = (count p l1 + count p l2)%nat.
Proof. unfold count. by rewrite filter_app, length_app. Qed.

Lemma count_retries (p : event → bool) (c : nat) n : ∀ i w,
  (∀ i e, count p (retried cur query params i e) = c) →
  (∀ k, (k < n)%nat → transient drv cur query params k w) →
  count p (retries drv cur query params i n w) = (n * c)%nat.
Proof.
  induction n as [|n IH]; intros i w Hc Hfail; [done|].
  destruct (Hfail 0%nat) as (e & He & Hop); [lia|].
  unfold attempt in He. simpl in He. simpl. rewrite He.
  rewrite count_app, Hc, IH; [done|done|].
  intros k Hk. specialize (Hfail (S k) ltac:(lia)).
  unfold transient, attempt in *. by simpl in Hfail.
Qed.

End Retry.

Section RetryClaims.

Context {W : Type} (drv : Driver W).

(** C1: a statement that fails on a transient operational error at every
    attempt is attempted exactly 5 times by [cursor_execute], which then
    raises the failure of the fifth attempt. *)
Theorem cursor_execute_persistent_failure (fuel : nat) (cur : Cursor)
    (query : string) (params : option (list pyval)) (w : W) :
  (5 ≤ fuel)%nat →
  (∀ n, (n < 5)%nat → transient drv cur query (default [] params) n w) →
  ∃ e st',
    cursor_execute drv fuel cur query params (State w []) = (st', Raised e)
    ∧ attempt drv cur query (default [] params) 4 w = Some e
    ∧ count is_execute (st_trace st') = 5%nat
    ∧ count is_failed_execute (st_trace st') = 5%nat.
Proof.
  intros Hfuel Hfail.
  destruct (Hfail 4%nat) as (e & He & Hop); [lia|].
  assert (Hrun :
    cursor_execute drv fuel cur query params (State w [])
    = (State (world_after drv cur query (default [] params) 4 w)
             (retries drv cur query (default [] params) 0 4 w
              ++ [EvExecute cur query (default [] params) (Some e)]),
       Raised e)).
  { unfold cursor_execute.
    replace fuel with (4 + S (fuel - 5))%nat by lia.
    change (match params with None => [] | Some p => p end)
      with (default [] params).
    rewrite loop_after_retries; [|lia|unfold DB_RETRIES; lia|].
    - unfold attempt in He. unfold world_after.
      destruct (drv_execute drv cur query (default [] params)
                  (world_before drv cur query (default [] params) 4 w))
        as [w' r] eqn:Hrun.
      simpl in He. subst r.
      by rewrite (loop_gives_up _ _ _ _ _ _ _ _ _ _ Hrun Hop).
    - intros k Hk. apply Hfail. lia. }
  eexists e, _. split; [exact Hrun|]. split; [exact He|].
  cbn [st_trace]. rewrite !count_app.
  rewrite (count_retries _ _ _ _ is_execute 1),
          (count_retries _ _ _ _ is_failed_execute 1); try done.
  all: intros k Hk; apply Hfail; lia.
Qed.

(** C2: when the first [k - 1] attempts fail on a transient operational
    error and attempt [k], at most the fifth, succeeds, [cursor_execute]
    returns what that execution returned, the cursor, and raises
    nothing. *)
Theorem cursor_execute_transient_then_success (fuel k : nat) (cur : Cursor)
    (query : string) (params : option (list pyval)) (w : W) :
  (5 ≤ fuel)%nat →
  (1 ≤ k ≤ 5)%nat →
  (∀ n, (n < k - 1)%nat → transient drv cur query (default [] params) n w) →
  attempt drv cur query (default [] params) (k - 1) w = None →
  cursor_execute drv fuel cur query params (State w [])
  = (State (world_after drv cur query (default [] params) (k - 1) w)
           (retries drv cur query (default [] params) 0 (k - 1) w
            ++ [EvExecute cur query (default [] params) None]),
     Returned cur).
Proof.
  intros Hfuel Hk Hfail Hok.
  unfold cursor_execute.
  replace fuel with ((k - 1) + S (fuel - k))%nat by lia.
  change (match params with None => [] | Some p => p end)
    with (default [] params).
  rewrite loop_after_retries; [|lia|unfold DB_RETRIES; lia|done].
  unfold attempt in Hok. unfold world_after.
  destruct (drv_execute drv cur query (default [] params)
              (world_before drv cur query (default [] params) (k - 1) w))
    as [w' r] eqn:Hrun.
  simpl in Hok. subst r.
  by rewrite (loop_returns _ _ _ _ _ _ _ _ _ Hrun).
Qed.

(** C3: when the statement raises an exception that is not a
    [sqlite3.OperationalError], [cursor_execute] raises it at once: the
    transcript holds the one attempt and nothing else, no retry, no
    sleep, no log entry. *)
Theorem cursor_execute_other_error (fuel : nat) (cur : Cursor)
    (query : string) (params : option (list pyval)) (w : W) (e : exn) :
  (1 ≤ fuel)%nat →
  attempt drv cur query (default [] params) 0 w = Some e →
  is_OperationalError e = false →
  cursor_execute drv fuel cur query params (State w [])
  = (State (world_after drv cur query (default [] params) 0 w)
           [EvExecute cur query (default [] params) (Some e)],
     Raised e).
Proof.
  intros Hfuel He Hop.
  unfold cursor_execute.
  destruct fuel as [|fuel]; [lia|].
  change (match params with None => [] | Some p => p end)
    with (default [] params).
  unfold attempt, world_after in *. cbn [world_before] in *.
  destruct (drv_execute drv cur query (default [] params) w)
    as [w' r] eqn:Hrun.
  simpl in He. subst r.
  by rewrite (loop_propagates _ _ _ _ _ _ _ _ _ _ Hrun Hop).
Qed.

(** C4, the last failure apart: every failed attempt but the one that
    ends the call is logged with the number of retries that remain,
    [DB_RETRIES - i], then with its exception, and is followed by a sleep
    of one second before the next attempt.  After [n] retried failures the transcript holds
    [n] such entries, [n] sleeps and [n + 1] attempts; for a persistent
    failure [n] is 4, for 5 failed attempts. *)
Theorem cursor_execute_transcript (fuel n : nat) (cur : Cursor)
    (query : string) (params : option (list pyval)) (w : W) :
  (5 ≤ fuel)%nat →
  (n ≤ 4)%nat →
  (∀ k, (k < n)%nat → transient drv cur query (default [] params) k w) →
  n = 4%nat ∨ ¬ transient drv cur query (default [] params) n w →
  let tr := st_trace (cursor_execute drv fuel cur query params (State w [])).1 in
  tr = retries drv cur query (default [] params) 0 n w
       ++ [EvExecute cur query (default [] params)
             (attempt drv cur query (default [] params) n w)]
  ∧ count is_retry_log tr = n
  ∧ count is_sleep tr = n
  ∧ count is_execute tr = S n.
Proof.
  intros Hfuel Hn Hfail Hlast tr.
  assert (Htr : tr = retries drv cur query (default [] params) 0 n w
       ++ [EvExecute cur query (default [] params)
             (attempt drv cur query (default [] params) n w)]).
  { subst tr. unfold cursor_execute.
    replace fuel with (n + S (fuel - S n))%nat by lia.
    change (match params with None => [] | Some p => p end)
      with (default [] params).
    rewrite loop_after_retries; [|lia|unfold DB_RETRIES; lia|done].
    unfold transient, attempt in *.
    destruct (drv_execute drv cur query (default [] params)
                (world_before drv cur query (default [] params) n w))
      as [w' [e|]] eqn:Hrun.
    - destruct (is_OperationalError e) eqn:Hop.
      + destruct Hlast as [->|Hnot].
        * by rewrite (loop_gives_up _ _ _ _ _ _ _ _ _ _ Hrun Hop).
        * destruct Hnot. by exists e.
      + by rewrite (loop_propagates _ _ _ _ _ _ _ _ _ _ Hrun Hop).
    - by rewrite (loop_returns _ _ _ _ _ _ _ _ _ Hrun). }
  split; [done|]. rewrite Htr, !count_app.
  rewrite (count_retries _ _ _ _ is_retry_log 1),
          (count_retries _ _ _ _ is_sleep 1),
          (count_retries _ _ _ _ is_execute 1); try done.
  repeat split; unfold count; simpl; lia.
Qed.

End RetryClaims.

(** ** What the functions add to the transcript *)

Section Confined.

Context {W : Type} (drv : Driver W).

Lemma confined_weaken {A} (P Q : event → Prop) (m : M W A) :
  (∀ e, P e → Q e) → confined P m → confined Q m.
Proof.
  intros HPQ Hm st. destruct (Hm st) as (mid & Htr & Hmid & Hend).
  exists mid. split; [done|]. split; [|done].
  eapply Forall_impl; eauto.
Qed.

Lemma confined_ret {A} P (a : A) : confined P (@ret W A a).
Proof. intros st. exists []. by rewrite app_nil_r. Qed.

Lemma confined_raise {A} P e : confined P (@raise W A e).
Proof. intros st. exists []. by rewrite app_nil_r. Qed.

Lemma confined_bind {A B} P (m : M W A) (k : A → M W B) :
  confined P m → (∀ a, confined P (k a)) → confined P (bind m k).
Proof.
  intros Hm Hk st. unfold bind.
  destruct (Hm st) as (mid & Htr & Hmid & Hend).
  destruct (m st) as [st1 [a|e|]]; simpl in *.
  - destruct (Hk a st1) as (mid' & Htr' & Hmid' & Hend').
    exists (mid ++ mid'). rewrite Htr', Htr, app_assoc.
    split; [done|]. split; [by apply Forall_app|done].
  - by exists mid.
  - done.
Qed.

Lemma confined_try_except {A} P (m : M W A) catches h :
  confined P m → (∀ e, confined P (h e)) →
  confined P (try_except m catches h).
Proof.
  intros Hm Hh st. unfold try_except.
  destruct (Hm st) as (mid & Htr & Hmid & Hend).
  destruct (m st) as [st1 [a|e|]]; simpl in *.
  - by exists mid.
  - destruct (catches e).
    + destruct (Hh e st1) as (mid' & Htr' & Hmid' & Hend').
      exists (mid ++ mid'). rewrite Htr', Htr, app_assoc.
      split; [done|]. split; [by apply Forall_app|done].
    + by exists mid.
  - done.
Qed.

Lemma confined_lift {A} P (r : exn + A) : confined P (@lift W A r).
Proof. destruct r; [apply confined_raise|apply confined_ret]. Qed.

(** One call out of the module adds one event. *)
Ltac one_event :=
  intros HP st; repeat case_match; eexists [_]; simpl;
  (split; [reflexivity|split; [by repeat constructor|done]]).

Lemma confined_execute (P : event → Prop) cur query params :
  (∀ r, P (EvExecute cur query params r)) →
  confined P (cursor_dot_execute drv cur query params).
Proof. unfold cursor_dot_execute. one_event. Qed.

Lemma confined_fetchall (P : event → Prop) cur :
  (∀ rows, P (EvFetchall cur rows)) → confined P (cursor_fetchall drv cur).
Proof. unfold cursor_fetchall. one_event. Qed.

Lemma confined_description (P : event → Prop) cur :
  (∀ d, P (EvDescription cur d)) → confined P (cursor_description drv cur).
Proof. unfold cursor_description. one_event. Qed.

Lemma confined_lastrowid (P : event → Prop) cur :
  (∀ v, P (EvLastrowid cur v)) → confined P (cursor_lastrowid drv cur).
Proof. unfold cursor_lastrowid. one_event. Qed.

Lemma confined_logger_error (P : event → Prop) m :
  P (EvLogError m) → confined P (@logger_error W m).
Proof. unfold logger_error. one_event. Qed.

Lemma confined_time_sleep (P : event → Prop) secs :
  P (EvSleep secs) → confined P (time_sleep drv secs).
Proof. unfold time_sleep. one_event. Qed.

Lemma confined_print (P : event → Prop) x :
  P (EvPrint x) → confined P (@print W x).
Proof. unfold print. one_event. Qed.

Lemma confined_py_assert P b : confined P (@py_assert W b).
Proof. destruct b; [apply confined_ret|apply confined_raise]. Qed.

Lemma confined_getitem P t i : confined P (@getitem W t i).
Proof.
  unfold getitem. destruct (t !! i); [apply confined_ret|apply confined_raise].
Qed.

Lemma confined_cursor_execute_body cur query params i :
  confined (retrying cur query params)
           (cursor_execute_body drv cur query params i).
Proof.
  unfold cursor_execute_body. apply confined_try_except.
  - apply confined_bind; [by apply confined_execute|].
    intros; apply confined_ret.
  - intros e. simpl. destruct (i + 1 =? DB_RETRIES); [apply confined_raise|].
    repeat (apply confined_bind; intros);
      auto using confined_logger_error, confined_time_sleep, confined_ret.
    + by apply confined_logger_error.
    + by apply confined_logger_error.
    + by apply confined_time_sleep.
Qed.

(** Without the end of the loop: [fuel] turns add attempts of the
    statement, log entries and sleeps. *)
Lemma loop_retrying cur query params fuel : ∀ i st, ∃ mid,
  st_trace (cursor_execute_loop drv fuel cur query params i st).1
  = st_trace st ++ mid
  ∧ Forall (retrying cur query params) mid.
Proof.
  induction fuel as [|fuel IH]; intros i st.
  - exists []. by rewrite app_nil_r.
  - simpl. unfold bind.
    destruct (confined_cursor_execute_body cur query params i st)
      as (mid & Htr & Hmid & _).
    destruct (cursor_execute_body drv cur query params i st)
      as [st1 [[v|i']|e|]]; simpl in *; try by exists mid.
    destruct (IH i' st1) as (mid' & Htr' & Hmid').
    exists (mid ++ mid'). rewrite Htr', Htr, app_assoc.
    split; [done|by apply Forall_app].
Qed.

Lemma confined_cursor_execute fuel cur query params :
  (5 ≤ fuel)%nat →
  confined (retrying cur query (default [] params))
           (cursor_execute drv fuel cur query params).
Proof.
  intros Hfuel st. unfold cursor_execute.
  destruct (loop_retrying cur query (default [] params) fuel 0 st)
    as (mid & Htr & Hmid).
  exists mid. split; [done|]. split; [done|].
  apply loop_terminates; unfold DB_RETRIES; lia.
Qed.

Lemma retrying_within cur query params e :
  retrying cur query params e → within cur e.
Proof. destruct e; simpl; try done. by intros [? _]. Qed.

Lemma confined_fetch_rows_and_names (P : event → Prop) cur :
  (∀ rows, P (EvFetchall cur rows)) →
  (∀ d, P (EvDescription cur d)) →
  confined P (fetch_rows_and_names drv cur).
Proof.
  intros Hrows Hd. unfold fetch_rows_and_names.
  apply confined_bind; [by apply confined_fetchall|intros rows].
  apply confined_bind; [by apply confined_description|intros d].
  apply confined_bind; [|intros; apply confined_ret].
  destruct d; [apply confined_ret|apply confined_raise].
Qed.

(** The [with] statement around a body that stays on its cursor: one
    connection, committed and then closed, whether the body returns or
    raises. *)
Lemma with_db_cursor_scoped {A} path (body : Cursor → M W A) w w1 c :
  drv_connect drv path w = (w1, inr c) →
  (∀ c' w', (drv_commit drv c' w').2 = None) →
  (∀ cur, confined (within cur) (body cur)) →
  scoped path
    (st_trace (with_db_cursor drv (db_cursor__init__ path) body (State w [])).1).
Proof.
  intros Hconn Hcommit Hbody.
  unfold with_db_cursor, db_cursor__enter__, bind, sqlite3_connect,
    connection_cursor, ret. simpl. rewrite Hconn. simpl.
  destruct (drv_cursor drv c w1) as [w2 cur] eqn:Hcur. simpl.
  destruct (Hbody cur (State w2 [EvConnect path (inr c); EvCursor c cur]))
    as (mid & Htr & Hmid & Hend).
  destruct (body cur _) as [[w3 tr3] out]. simpl in *. subst tr3.
  exists c, cur, mid. split; [|done].
  unfold db_cursor__exit__, bind, connection_commit, connection_close. simpl.
  specialize (Hcommit c w3).
  destruct (drv_commit drv c w3) as [w4 r]. simpl in Hcommit. subst r.
  destruct out as [a|e|]; [| |done]; simpl; by rewrite <- !app_assoc.
Qed.

(** A continuation that leaves the state alone leaves the transcript
    alone. *)
Lemma bind_pure_trace {A B} (m : M W A) (k : A → M W B) st :
  (∀ a st', (k a st').1 = st') →
  st_trace (bind m k st).1 = st_trace (m st).1.
Proof.
  intros Hk. unfold bind. destruct (m st) as [st1 [a|e|]]; [|done|done].
  by rewrite Hk.
Qed.

Lemma lift_pure {A} (r : exn + A) (st : state W) : (lift r st).1 = st.
Proof. by destruct r. Qed.

End Confined.

(** ** The helpers *)

Section Helpers.

Context {W : Type} (drv : Driver W).

(** The bodies of the [with] statements stay on their cursor. *)
Ltac confine :=
  repeat first
    [ apply confined_ret
    | apply confined_raise
    | apply confined_lift
    | apply confined_py_assert
    | apply confined_getitem
    | apply confined_print; done
    | apply confined_lastrowid; done
    | apply confined_execute; done
    | apply confined_fetch_rows_and_names; done
    | eapply confined_weaken;
      [apply retrying_within|apply confined_cursor_execute; lia]
    | apply confined_try_except; [|intros ?]
    | apply confined_bind; [|intros ?] ].

(** C5, amended: each of [db_insert], [db_update], [db_delete],
    [db_select] and [db_query] opens one connection of its own, and when
    the commit does not raise it commits and then closes that connection
    before it comes back, whether the statement ran or raised. *)
Theorem helpers_scope_their_connection (fuel : nat) (path : string)
    (w w1 : W) (c : Connection) :
  (5 ≤ fuel)%nat →
  drv_connect drv path w = (w1, inr c) →
  (∀ c' w', (drv_commit drv c' w').2 = None) →
  (∀ table fields,
     scoped path
       (st_trace (db_insert drv fuel path table fields (State w [])).1))
  ∧ (∀ table updated_fields row,
       scoped path
         (st_trace
            (db_update drv fuel path table updated_fields row (State w [])).1))
  ∧ (∀ table field value,
       scoped path
         (st_trace (db_delete drv fuel path table field value (State w [])).1))
  ∧ (∀ table fields condition,
       scoped path
         (st_trace
            (db_select drv fuel path table fields condition (State w [])).1))
  ∧ (∀ query params,
       scoped path
         (st_trace (db_query drv fuel path query params (State w [])).1)).
Proof.
  intros Hfuel Hconn Hcommit.
  repeat split; intros.
  - unfold db_insert. rewrite bind_pure_trace by done.
    apply (with_db_cursor_scoped drv path _ w w1 c Hconn Hcommit).
    intros cur. confine.
  - unfold db_update.
    apply (with_db_cursor_scoped drv path _ w w1 c Hconn Hcommit).
    intros cur. confine.
  - unfold db_delete.
    apply (with_db_cursor_scoped drv path _ w w1 c Hconn Hcommit).
    intros cur. confine.
  - unfold db_select. rewrite bind_pure_trace by (intros; apply lift_pure).
    apply (with_db_cursor_scoped drv path _ w w1 c Hconn Hcommit).
    intros cur. destruct (truthy condition); confine.
  - unfold db_query. rewrite bind_pure_trace by (intros; apply lift_pure).
    apply (with_db_cursor_scoped drv path _ w w1 c Hconn Hcommit).
    intros cur. confine.
Qed.

(** Entering the [with] statement when the connection opens. *)
Lemma enter_connected path w w1 c w2 cur tr :
  drv_connect drv path w = (w1, inr c) →
  drv_cursor drv c w1 = (w2, cur) →
  db_cursor__enter__ drv (db_cursor__init__ path) (State w tr)
  = (State w2 (tr ++ [EvConnect path (inr c); EvCursor c cur]),
     Returned ({| db_path := path; db_conn := Some c |}, cur)).
Proof.
  intros Hconn Hcur.
  unfold db_cursor__enter__, bind, sqlite3_connect, connection_cursor, ret.
  simpl. rewrite Hconn. simpl. rewrite Hcur. unfold emit.
  by rewrite <- app_assoc.
Qed.

(** Leaving it when the commit goes through. *)
Lemma exit_committed path c w tr :
  (drv_commit drv c w).2 = None →
  db_cursor__exit__ drv {| db_path := path; db_conn := Some c |} (State w tr)
  = (State (drv_close drv c (drv_commit drv c w).1)
           (tr ++ [EvCommit c None; EvClose c]),
     Returned tt).
Proof.
  intros Hcommit.
  unfold db_cursor__exit__, bind, connection_commit, connection_close.
  simpl. destruct (drv_commit drv c w) as [w' r]. simpl in *. subst r.
  unfold emit. simpl. by rewrite <- app_assoc.
Qed.



(** C9: [add_field] calls [cursor.execute] itself: a transient
    operational error of the [ALTER TABLE] statement is raised after the
    one attempt, and nothing is retried, slept or logged. *)
Theorem add_field_does_not_retry (path tablename : string)
    (field : gmap string pyval) (name type : pyval) (w w1 w2 w3 : W)
    (c : Connection) (cur : Cursor) (e : exn) :
  let query :=
    PyString.percent "ALTER TABLE %s ADD COLUMN %s %s"
                     [tablename; py_str name; py_str type] in
  field !! "name" = Some name →
  field !! "type" = Some type →
  drv_connect drv path w = (w1, inr c) →
  drv_cursor drv c w1 = (w2, cur) →
  drv_execute drv cur query [] w2 = (w3, Some e) →
  is_OperationalError e = true →
  (drv_commit drv c w3).2 = None →
  add_field drv path tablename field (State w [])
  = (State (drv_close drv c (drv_commit drv c w3).1)
           [EvConnect path (inr c); EvCursor c cur;
            EvExecute cur query [] (Some e);
            EvCommit c None; EvClose c],
     Raised e).
Proof.
  intros query Hname Htype Hconn Hcur Hexec Hop Hcommit.
  unfold add_field, dict_getitem. rewrite Hname, Htype.
  unfold bind at 1. unfold ret at 1. unfold bind at 1. unfold ret at 1.
  fold query. unfold with_db_cursor.
  rewrite (enter_connected _ _ _ _ _ _ _ Hconn Hcur).
  unfold bind at 1. unfold cursor_dot_execute. cbn [st_world st_trace].
  rewrite Hexec. unfold emit.
  by rewrite (exit_committed _ _ _ _ Hcommit).
Qed.

(** C10: for [db_select] an empty sequence of fields is the same as no
    fields, and both select the columns [*]; an empty condition is the
    same as no condition. *)
Theorem db_select_falsy_arguments (fuel : nat) (path table : string)
    (fields : option (list string)) (condition : option (list pyval))
    (st : state W) :
  db_select drv fuel path table (Some []) condition st
  = db_select drv fuel path table None condition st
  ∧ db_select drv fuel path table None condition st
    = db_select drv fuel path table (Some ["*"]) condition st
  ∧ db_select drv fuel path table fields (Some []) st
    = db_select drv fuel path table fields None st.
Proof. done. Qed.

(** *** Rows as mappings *)

Lemma row_data_loop_spec (names : list string) : ∀ k row acc m,
  row_data_loop (zip (seq k (length names)) names) row acc = inr m →
  dom m = dom acc ∪ list_to_set names
  ∧ (∀ name, name ∉ names → m !! name = acc !! name)
  ∧ ∀ j name,
      names !! j = Some name →
      (∀ j', (j < j')%nat → names !! j' ≠ Some name) →
      is_Some (row !! (k + j)%nat) ∧ m !! name = row !! (k + j)%nat.
Proof.
  induction names as [|name0 names IH]; intros k row acc m Hloop.
  - simpl in Hloop. injection Hloop as <-.
    split; [set_solver|]. split; [done|]. intros j name Hj. done.
  - simpl in Hloop. destruct (row !! k) as [v|] eqn:Hv; [|done].
    apply IH in Hloop as (Hdom & Hout & Hin).
    split; [rewrite Hdom, dom_insert_L; set_solver|].
    split.
    + intros name Hname. rewrite Hout by set_solver.
      apply lookup_insert_ne. set_solver.
    + intros [|j] name Hj Hlast; simpl in Hj.
      * injection Hj as ->. rewrite Nat.add_0_r, Hv. split; [done|].
        rewrite Hout; [by rewrite lookup_insert_eq|].
        intros (j' & Hj')%list_elem_of_lookup.
        by apply (Hlast (S j')); [lia|].
      * replace (k + S j)%nat with (S k + j)%nat by lia.
        apply Hin; [done|].
        intros j' Hlt. apply (Hlast (S j')). lia.
Qed.

Lemma row_data_loop_mapping names row m :
  row_data_loop (enumerate names) row ∅ = inr m → row_mapping names row m.
Proof.
  intros (Hdom & _ & Hin)%row_data_loop_spec. split.
  - rewrite Hdom. set_solver.
  - intros j name Hj Hlast. by apply (Hin j name).
Qed.

Lemma results_loop_spec (rows : list (list pyval)) : ∀ names acc results,
  results_loop rows names acc = inr results →
  ∃ ms, results = acc ++ ms ∧ Forall2 (row_mapping names) rows ms.
Proof.
  induction rows as [|row rows IH]; intros names acc results Hloop.
  - simpl in Hloop. injection Hloop as <-.
    exists []. by rewrite app_nil_r.
  - simpl in Hloop.
    destruct (row_data_loop (enumerate names) row ∅) as [e|m] eqn:Hrow;
      [done|].
    apply IH in Hloop as (ms & -> & Hms).
    exists (m :: ms). rewrite <- app_assoc. split; [done|].
    constructor; [by apply row_data_loop_mapping|done].
Qed.

(** *** Reading the results of a statement *)







End Helpers.

(** ** The reference engine on the statement of [db_update] *)

Section UpdateStatement.

Import Engine.

Lemma append_cons (x : ascii) (a b : string) :
  String x a +:+ b = String x (a +:+ b).
Proof. done. Qed.

Lemma append_nil_l (a : string) : "" +:+ a = a.
Proof. done. Qed.

Lemma append_assoc (a b c : string) : (a +:+ b) +:+ c = a +:+ (b +:+ c).
Proof.
  induction a as [|x a IH]; [done|]. by rewrite !append_cons, IH.
Qed.

Lemma append_nil_r (a : string) : a +:+ "" = a.
Proof. induction a as [|x a IH]; [done|]. by rewrite append_cons, IH. Qed.

(** A word is read in one go. *)
Lemma lex_word (id : string) : ∀ word s,
  word ≠ "" →
  all_word_chars id = true → lex word (id +:+ s) = lex (word +:+ id) s.
Proof.
  induction id as [|x id IH]; intros word s Hword Hid.
  - by rewrite append_nil_l, append_nil_r.
  - simpl in Hid. apply andb_true_iff in Hid as [Hx Hid].
    rewrite append_cons. simpl.
    rewrite Hx, (proj2 (String.eqb_neq _ _) Hword). simpl.
    rewrite IH; [|by destruct word|done].
    by rewrite append_assoc, append_cons, append_nil_l.
Qed.

Lemma lex_identifier id s :
  is_identifier id = true → lex "" (id +:+ s) = lex id s.
Proof.
  destruct id as [|x id]; [done|]. cbn [is_identifier].
  intros [[Hx Hdigit]%andb_true_iff Hid]%andb_true_iff.
  apply negb_true_iff in Hdigit.
  rewrite append_cons. simpl. rewrite Hx, Hdigit. simpl.
  rewrite lex_word by done. by rewrite append_nil_l, append_cons, append_nil_l.
Qed.

Lemma flush_identifier id ts :
  is_identifier id = true → flush id ts = TWord id :: ts.
Proof. by destruct id. Qed.

Lemma lex_space s ts : lex "" s = Some ts → lex "" (String " " s) = Some ts.
Proof. intros Hs. simpl. by rewrite Hs. Qed.

(** An identifier before a space, and before [=?]. *)
Lemma lex_identifier_space id s ts :
  is_identifier id = true →
  lex "" s = Some ts →
  lex "" (id +:+ String " " s) = Some (TWord id :: ts).
Proof.
  intros Hid Hs. rewrite lex_identifier by done.
  simpl. rewrite Hs. simpl. by rewrite flush_identifier.
Qed.

Lemma lex_assignment id s ts :
  is_identifier id = true →
  lex "" s = Some ts →
  lex "" (id +:+ String "=" (String "?" s))
  = Some (TWord id :: TEq :: TParam :: ts).
Proof.
  intros Hid Hs. rewrite lex_identifier by done.
  simpl. rewrite Hs. simpl. by rewrite flush_identifier.
Qed.

Lemma lex_comma_space s ts :
  lex "" s = Some ts → lex "" (String "," (String " " s)) = Some (TComma :: ts).
Proof. intros Hs. simpl. by rewrite Hs. Qed.

(** The assignments of the statement, whatever follows them. *)
Lemma lex_assignments (cols : list string) s ts :
  cols ≠ [] →
  Forall (λ c, is_identifier c = true) cols →
  lex "" s = Some ts →
  lex "" (PyString.join "=?, " cols +:+ String "=" (String "?" s))
  = Some (assignment_tokens cols ++ ts).
Proof.
  intros Hne Hcols Hs. induction Hcols as [|c cols Hc Hcols IH]; [done|].
  destruct cols as [|c' cols].
  - by apply lex_assignment.
  - change (PyString.join "=?, " (c :: c' :: cols))
      with (c +:+ "=?, " +:+ PyString.join "=?, " (c' :: cols)).
    rewrite !append_assoc, !append_cons, append_nil_l.
    change (assignment_tokens (c :: c' :: cols) ++ ts)
      with (TWord c :: TEq :: TParam :: TComma
            :: (assignment_tokens (c' :: cols) ++ ts)).
    apply lex_assignment; [done|].
    apply lex_comma_space. by apply IH.
Qed.

Lemma parse_assignments_tokens (cols : list string) rest :
  cols ≠ [] →
  (∀ rest', rest ≠ TComma :: rest') →
  parse_assignments (assignment_tokens cols ++ rest) = Some (cols, rest).
Proof.
  intros Hne Hrest. induction cols as [|c cols IH]; [done|].
  destruct cols as [|c' cols].
  - simpl. destruct rest as [|[] rest]; try done. by destruct (Hrest rest).
  - change (assignment_tokens (c :: c' :: cols))
      with (TWord c :: TEq :: TParam :: TComma :: assignment_tokens (c' :: cols)).
    cbn [app parse_assignments]. by rewrite IH.
Qed.

(** The statement [db_update] builds, word by word. *)
Lemma update_query_words table cols c :
  PyString.format "UPDATE {0} SET {1} WHERE {2}"
    [table; PyString.join "=?, " cols +:+ "=?"; PyString.format "{0}=?" [c]]
  = "UPDATE" +:+ String " " (table +:+ String " " ("SET" +:+ String " "
      (PyString.join "=?, " cols +:+ String "=" (String "?" (String " "
         ("WHERE" +:+ String " " (c +:+ String "=" (String "?" "")))))))).
Proof. simpl. by rewrite append_nil_r, append_assoc. Qed.

Lemma parse_update_query table cols c :
  is_identifier table = true →
  Forall (λ c, is_identifier c = true) cols →
  is_identifier c = true →
  parse (PyString.format "UPDATE {0} SET {1} WHERE {2}"
           [table; PyString.join "=?, " cols +:+ "=?";
            PyString.format "{0}=?" [c]])
  = if decide (cols = []) then None else Some (Update table cols c).
Proof.
  intros Ht Hcols Hc. unfold parse. rewrite update_query_words.
  assert (Htail :
    lex "" ("WHERE" +:+ String " " (c +:+ String "=" (String "?" "")))
    = Some [TWord "WHERE"; TWord c; TEq; TParam]).
  { apply lex_identifier_space; [done|]. by apply lex_assignment. }
  destruct (decide (cols = [])) as [->|Hne].
  - rewrite (lex_identifier_space "UPDATE" _
               [TWord table; TWord "SET"; TEq; TParam;
                TWord "WHERE"; TWord c; TEq; TParam]); [done|done|].
    apply lex_identifier_space; [done|].
    apply lex_identifier_space; [done|].
    cbn [PyString.join]. rewrite append_nil_l.
    simpl. simpl in Htail. by rewrite Htail.
  - rewrite (lex_identifier_space "UPDATE" _
               (TWord table :: TWord "SET" :: assignment_tokens cols
                ++ [TWord "WHERE"; TWord c; TEq; TParam])); [|done|].
    + cbn [mbind option_bind parse_tokens]. 
      change (keyword "INSERT" (TWord "UPDATE")) with false.
      change (keyword "UPDATE" (TWord "UPDATE")) with true.
      cbn [parse_update]. 
      change (keyword "UPDATE" (TWord "UPDATE")) with true.
      change (keyword "SET" (TWord "SET")) with true.
      cbn [andb]. rewrite parse_assignments_tokens; [done|done|done].
    + apply lex_identifier_space; [done|].
      apply lex_identifier_space; [done|].
      apply lex_assignments; [done|done|]. by apply lex_space.
Qed.

(** *** What the engine does with it *)

Lemma column_index_lookup (columns : list string) c : ∀ k,
  column_index columns c = Some k → columns !! k = Some c.
Proof.
  induction columns as [|c' columns IH]; intros k; simpl; [done|].
  destruct (String.eqb c' c) eqn:Heq.
  - apply String.eqb_eq in Heq as ->. by intros [= <-].
  - destruct (column_index columns c) as [k'|]; [|done].
    intros [= <-]. by apply IH.
Qed.

Lemma foldl_assign_length jvs : ∀ cells,
  length (foldl assign cells jvs) = length cells.
Proof.
  induction jvs as [|jv jvs IH]; intros cells; simpl; [done|].
  rewrite IH. apply length_insert.
Qed.

Lemma foldl_assign_lookup_ne jvs (k : nat) : ∀ cells,
  k ∉ jvs.*1 → foldl assign cells jvs !! k = cells !! k.
Proof.
  induction jvs as [|jv jvs IH]; intros cells Hk; simpl; [done|].
  rewrite IH by set_solver. apply list_lookup_insert_ne. set_solver.
Qed.

Lemma row_frame_refl tb cols c v r : row_frame tb cols c v r r.
Proof. by repeat split. Qed.

Lemma table_frame_refl cols c v (tb : option table) :
  table_frame cols c v tb tb.
Proof.
  destruct tb as [tb|]; [|done]. repeat split.
  apply Forall2_same_length_lookup_2; [done|].
  intros i r r' Hr Hr'. assert (r' = r) as -> by congruence.
  apply row_frame_refl.
Qed.

Lemma update_row_frame tb cols c v j idxs new r :
  column_index (tbl_columns tb) c = Some j →
  mapM (column_index (tbl_columns tb)) cols = Some idxs →
  row_frame tb cols c v r (update_row j v idxs new r).
Proof.
  intros Hj Hidxs. unfold update_row.
  destruct (matches j v r) eqn:Hmatch; [|apply row_frame_refl].
  split; [done|]. split; [apply foldl_assign_length|]. split.
  - intros Hnot. destruct Hnot. by exists j.
  - intros k name Hk Hname. simpl. apply foldl_assign_lookup_ne.
    intros Hin. apply Hname.
    apply list_elem_of_fmap in Hin as ([k' x] & -> & Hin). simpl in *.
    apply elem_of_zip_l in Hin.
    apply mapM_Some in Hidxs.
    apply list_elem_of_lookup in Hin as (i & Hi).
    destruct (Forall2_lookup_r _ _ _ _ _ Hidxs Hi) as (col & Hcol & Hindex).
    apply column_index_lookup in Hindex.
    assert (col = name) as -> by congruence.
    by apply list_elem_of_lookup_2 in Hcol.
Qed.

Lemma exec_update_frame t cols c params db eff :
  exec_update t cols c params db = inr eff →
  ∃ tb tb',
    db !! t = Some tb
    ∧ eff_db eff = <[t:=tb']> db
    ∧ table_frame cols c (default PyNone (last params)) (Some tb) (Some tb').
Proof.
  unfold exec_update.
  destruct (db !! t) as [tb|]; [|done]. simpl.
  destruct (mapM (column_index (tbl_columns tb)) cols) as [idxs|] eqn:Hidxs;
    [|done]. simpl.
  destruct (column_index (tbl_columns tb) c) as [j|] eqn:Hj; [|done]. simpl.
  destruct (_ =? _)%nat; [|done]. simpl.
  destruct (unique_ok _); [|done]. simpl.
  intros [= <-]. eexists tb, _. split; [done|]. split; [done|].
  split; [done|]. split; [done|]. simpl.
  apply Forall2_fmap_r, Forall_Forall2_diag, Forall_forall.
  intros r _. by apply update_row_frame.
Qed.

(** *** The retry loop on the engine *)

(** Whatever the schedule, the loop leaves the files alone, and the
    transaction as it was or as one run of the statement made it. *)
Lemma loop_on_engine cur query params h path db0 fuel : ∀ i w tr,
  session w = Some (h, path, db0) →
  let w' :=
    st_world (cursor_execute_loop driver fuel cur query params i (State w tr)).1 in
  disk w' = disk w
  ∧ ∃ dbf,
      session w' = Some (h, path, dbf)
      ∧ (dbf = db0
         ∨ ∃ eff, run_query query params db0 = inr eff ∧ dbf = eff_db eff).
Proof.
  induction fuel as [|fuel IH]; intros i w tr Hs; [by eauto|].
  destruct (drv_execute driver cur query params w) as [w1 r] eqn:Hrun.
  assert (Hw1 : disk w1 = disk w
    ∧ match r with
      | Some _ => session w1 = Some (h, path, db0)
      | None => ∃ eff, run_query query params db0 = inr eff
                       ∧ session w1 = Some (h, path, eff_db eff)
      end).
  { simpl in Hrun. unfold execute in Hrun. simpl in Hrun. rewrite Hs in Hrun.
    destruct (hd false (busy w)); [by injection Hrun as <- <-|].
    destruct (run_query query params db0) as [e|eff]; [by injection Hrun as <- <-|].
    injection Hrun as <- <-. simpl. eauto. }
  destruct Hw1 as [Hdisk Hsession].
  destruct r as [e|].
  - destruct (is_OperationalError e) eqn:Hop.
    + destruct (decide (i + 1 = DB_RETRIES)) as [Hlast|Hmore].
      * rewrite (loop_gives_up _ _ _ _ _ _ _ _ _ _ Hrun Hop Hlast). eauto.
      * rewrite (loop_retries _ _ _ _ _ _ _ _ _ _ Hrun Hop Hmore).
        destruct (IH (i + 1) (drv_sleep driver 1 w1)
                    (tr ++ retried cur query params i e))
          as (Hdisk' & dbf & Hsession' & Hdbf); [done|].
        split; [by rewrite Hdisk'|]. eauto.
    + rewrite (loop_propagates _ _ _ _ _ _ _ _ _ _ Hrun Hop). eauto.
  - rewrite (loop_returns _ _ _ _ _ _ _ _ _ Hrun).
    destruct Hsession as (eff & Hq & Hsession). eauto 10.
Qed.

(** [db_update] on the engine: the file of [path] ends as it was or as
    one run of the statement made it, and no other file is written. *)
Lemma db_update_on_engine fuel path table updated_fields row w :
  let query :=
    PyString.format "UPDATE {0} SET {1} WHERE {2}"
      [table; PyString.join "=?, " (keys updated_fields) +:+ "=?";
       PyString.format "{0}=?" [py_str row.1]] in
  let params := values updated_fields ++ [row.2] in
  let after :=
    disk (st_world
            (db_update driver fuel path table updated_fields row (State w [])).1) in
  after = disk w
  ∨ ∃ dbf,
      after = <[path:=dbf]> (disk w)
      ∧ (dbf = db_at (disk w) path
         ∨ ∃ eff,
             run_query query params (db_at (disk w) path) = inr eff
             ∧ dbf = eff_db eff).
Proof.
  intros query params after. subst after.
  unfold db_update. rewrite decode_utf8_values_id.
  fold query. fold params.
  unfold with_db_cursor.
  rewrite (enter_connected driver path w (connect path w).1 (next_handle w)
             (connect path w).1 (next_handle w)) by done.
  unfold cursor_execute, bind.
  destruct (loop_on_engine (next_handle w) query params (next_handle w) path
              (db_at (disk w) path) fuel 0 (connect path w).1
              ([] ++ [EvConnect path (inr (next_handle w));
                      EvCursor (next_handle w) (next_handle w)]))
    as (Hdisk & dbf & Hsession & Hdbf); [done|].
  destruct (cursor_execute_loop driver fuel _ _ _ _ _) as [[w3 tr3] out].
  simpl in Hdisk, Hsession.
  assert (Hexit : disk (drv_close driver (next_handle w)
                          (drv_commit driver (next_handle w) w3).1)
                  = <[path:=dbf]> (disk w)).
  { simpl. unfold commit. rewrite Hsession. simpl. by rewrite Hdisk. }
  destruct out as [a|e|].
  - right. exists dbf. split; [|done].
    cbv beta iota delta [ret]. rewrite exit_committed; [done|].
    simpl. unfold commit. by rewrite Hsession.
  - right. exists dbf. split; [|done].
    cbv beta iota. rewrite exit_committed; [done|].
    simpl. unfold commit. by rewrite Hsession.
  - left. done.
Qed.

(** C8: on the engine [db_update] touches nothing but the table it is
    given in the file it is given, there only the rows that the condition
    selects, and in them only the columns of [updated_fields]; this for
    names that are plain identifiers. *)
Theorem db_update_frame (fuel : nat) (path table : string)
    (updated_fields : list (string * pyval)) (row : pyval * pyval)
    (w : world) :
  is_identifier table = true →
  Forall (λ c, is_identifier c = true) (keys updated_fields) →
  is_identifier (py_str row.1) = true →
  let before := disk w in
  let after :=
    disk (st_world
            (db_update driver fuel path table updated_fields row (State w [])).1) in
  (∀ path', path' ≠ path → after !! path' = before !! path')
  ∧ (∀ t, t ≠ table → db_at after path !! t = db_at before path !! t)
  ∧ table_frame (keys updated_fields) (py_str row.1) row.2
      (db_at before path !! table) (db_at after path !! table).
Proof.
  intros Htable Hkeys Hcolumn before after.
  destruct (db_update_on_engine fuel path table updated_fields row w)
    as [Hsame|(dbf & Hafter & Hdbf)]; fold after in Hsame || fold after in Hafter.
  - rewrite Hsame. split; [done|]. split; [done|]. apply table_frame_refl.
  - assert (Hat : db_at after path = dbf).
    { unfold db_at. by rewrite Hafter, lookup_insert_eq. }
    split; [intros path' Hne; by rewrite Hafter, lookup_insert_ne|].
    rewrite Hat. destruct Hdbf as [->|(eff & Hrun & ->)].
    { split; [done|]. apply table_frame_refl. }
    unfold run_query in Hrun.
    rewrite parse_update_query in Hrun by done.
    destruct (decide (keys updated_fields = [])); [done|].
    simpl in Hrun.
    apply exec_update_frame in Hrun as (tb & tb' & Htb & -> & Hframe).
    rewrite last_snoc in Hframe. simpl in Hframe.
    split; [intros t Hne; by rewrite lookup_insert_ne|].
    fold before. unfold before. rewrite Htb, lookup_insert_eq. done.
Qed.

End UpdateStatement.

(** ** Runs on the example database *)

Section Runs.

Import Engine Example.

Local Open Scope nat_scope.

(** A table that does not exist is a failure that no retry cures. *)
Lemma cursor_execute_persistent_failure_witness :
  ∃ e st',
    cursor_execute driver 5 0 "delete from runners where id=?"
      (Some [PyInt 2]) (State (connected []) [])
    = (st', Raised e)
    ∧ attempt driver 0 "delete from runners where id=?"
        (default [] (Some [PyInt 2])) 4 (connected [])
      = Some e
    ∧ count is_execute (st_trace st') = 5%nat
    ∧ count is_failed_execute (st_trace st') = 5%nat.
Proof.
  apply cursor_execute_persistent_failure; [lia|].
  intros n Hn.
  do 5 (destruct n as [|n]; [eexists; split; vm_compute; reflexivity|]).
  lia.
Defined.

(** The file is locked for the first two attempts; the third goes
    through. *)
Lemma cursor_execute_transient_then_success_witness :
  (cursor_execute driver 5 0 "delete from games where id=?"
     (Some [PyInt 2]) (State (connected [true; true]) [])).2
  = Returned 0%nat.
Proof.
  rewrite (cursor_execute_transient_then_success driver 5 3); [done|lia|lia| |].
  - intros n Hn.
    do 2 (destruct n as [|n]; [eexists; split; vm_compute; reflexivity|]).
    simpl in Hn. lia.
  - vm_compute. reflexivity.
Defined.

(** A second game with the slug of the first: an integrity error. *)
Lemma cursor_execute_other_error_witness :
  (cursor_execute driver 5 0 "insert into games(name, slug) values (?, ?)"
     (Some [PyStr "Doom 2"; PyStr "doom"]) (State (connected []) [])).2
  = Raised (IntegrityError "UNIQUE constraint failed").
Proof.
  rewrite (cursor_execute_other_error driver 5 0 _ _ _
             (IntegrityError "UNIQUE constraint failed"));
    [done|lia|vm_compute; reflexivity|reflexivity].
Defined.

Lemma cursor_execute_transcript_witness :
  let tr :=
    st_trace (cursor_execute driver 5 0 "delete from runners where id=?"
                (Some [PyInt 2]) (State (connected []) [])).1 in
  count is_retry_log tr = 4%nat
  ∧ count is_sleep tr = 4%nat
  ∧ count is_execute tr = 5%nat.
Proof.
  apply (cursor_execute_transcript driver 5 4 0
           "delete from runners where id=?" (Some [PyInt 2]) (connected []));
    [lia|lia| |by left].
  intros n Hn.
  do 4 (destruct n as [|n]; [eexists; split; vm_compute; reflexivity|]).
  lia.
Defined.

(** C4 as it is written fails: when the file stays locked there are five
    failed attempts, and four log entries and four sleeps, not five. *)
Lemma persistent_failure_logs_four_times :
  let tr :=
    st_trace (cursor_execute driver 5 0 "delete from games where id=?"
                (Some [PyInt 2])
                (State (connected [true; true; true; true; true]) [])).1 in
  count is_failed_execute tr = 5%nat
  ∧ count is_retry_log tr = 4%nat
  ∧ count is_sleep tr = 4%nat
  ∧ count is_retry_log tr ≠ count is_failed_execute tr
  ∧ count is_sleep tr ≠ count is_failed_execute tr.
Proof. vm_compute. repeat split; lia. Qed.

Lemma commit_goes_through (c : Connection) (w : world) :
  (drv_commit driver c w).2 = None.
Proof. simpl. unfold commit. by destruct (session w) as [[[? ?] ?]|]. Qed.

Lemma helpers_scope_their_connection_witness :
  scoped "pga.db"
    (st_trace (db_delete driver 5 "pga.db" "games" "id" (PyInt 2)
                 (State (idle [true]) [])).1)
  ∧ scoped "pga.db"
      (st_trace (db_insert driver 5 "pga.db" "games"
                   [("name", PyStr "Doom 2"); ("slug", PyStr "doom")]
                   (State (idle []) [])).1).
Proof.
  split.
  - apply (helpers_scope_their_connection driver 5 "pga.db" (idle [true])
             (connect "pga.db" (idle [true])).1 0);
      [lia|reflexivity|apply commit_goes_through].
  - apply (helpers_scope_their_connection driver 5 "pga.db" (idle [])
             (connect "pga.db" (idle [])).1 0);
      [lia|reflexivity|apply commit_goes_through].
Defined.

(** C5 as it is written fails: [__exit__] has no [finally], so when the
    commit raises, here after a delete that went through, the helper
    raises and its connection is never closed. *)
Lemma failed_commit_skips_close :
  let run :=
    db_delete Faults.commit_locked 5 "pga.db" "games" "id" (PyInt 2)
      (State (idle []) []) in
  st_trace run.1
  = [EvConnect "pga.db" (inr 0%nat); EvCursor 0%nat 0%nat;
     EvExecute 0%nat "delete from games where id=?" [PyInt 2] None;
     EvCommit 0%nat (Some locked)]
  ∧ run.2 = Raised locked
  ∧ (EvClose 0%nat ∉ st_trace run.1)
  ∧ ¬ scoped "pga.db" (st_trace run.1).
Proof.
  assert (Htr :
    st_trace
      (db_delete Faults.commit_locked 5 "pga.db" "games" "id" (PyInt 2)
         (State (idle []) [])).1
    = [EvConnect "pga.db" (inr 0%nat); EvCursor 0%nat 0%nat;
       EvExecute 0%nat "delete from games where id=?" [PyInt 2] None;
       EvCommit 0%nat (Some locked)])
    by (vm_compute; reflexivity).
  cbv zeta. rewrite Htr.
  split; [done|]. split; [vm_compute; reflexivity|]. split.
  - rewrite !elem_of_cons, elem_of_nil. intros [H|[H|[H|[H|[]]]]]; discriminate H.
  - intros (c & cur & mid & Heq & _).
    assert (Hlast :
      last (EvConnect "pga.db" (inr c) :: EvCursor c cur
            :: mid ++ [EvCommit c None; EvClose c])
      = Some (EvClose c)).
    { change (last (([EvConnect "pga.db" (inr c); EvCursor c cur]
                     ++ mid ++ [EvCommit c None] ++ [EvClose c]))
              = Some (EvClose c)).
      rewrite !app_assoc. apply last_snoc. }
    rewrite <- Heq in Hlast. discriminate Hlast.
Qed.



Lemma db_update_frame_witness :
  table_frame ["name"] "id" (PyInt 1)
    (db_at files "pga.db" !! "games")
    (db_at
       (disk (st_world
                (db_update driver 5 "pga.db" "games" [("name", PyStr "Quake II")]
                   (PyStr "id", PyInt 1) (State (idle [true]) [])).1))
       "pga.db" !! "games").
Proof.
  apply (db_update_frame 5 "pga.db" "games" [("name", PyStr "Quake II")]
           (PyStr "id", PyInt 1) (idle [true]));
    [reflexivity|by repeat constructor|reflexivity].
Defined.

(** The column is there already: an operational error. *)
Lemma add_field_does_not_retry_witness :
  ∃ st',
    add_field driver "pga.db" "games"
      {["name" := PyStr "slug"; "type" := PyStr "TEXT"]} (State (idle []) [])
    = (st', Raised (OperationalError "duplicate column name: slug"))
    ∧ count is_execute (st_trace st') = 1%nat.
Proof.
  eexists. split.
  - eapply add_field_does_not_retry;
      [reflexivity|reflexivity|reflexivity|reflexivity|vm_compute; reflexivity
      |reflexivity|apply commit_goes_through].
  - reflexivity.
Defined.

End Runs.

(** * More properties *)

(** ** The retry loop, whatever the driver answers *)

Section RetryBounds.

Context {W : Type} (drv : Driver W).
Context (cur : Cursor) (query : string) (params : list pyval).

#[local] Abbreviation turns := (cursor_execute_loop drv).

Lemma retried_failed_retry i e :
  is_OperationalError e = true →
  Forall (failed_retry cur query params) (retried cur query params i e).
Proof. intros Hop. repeat constructor. by exists e. Qed.

(** A loop that comes to an end did so on an attempt, and what it
    returns or raises is what that attempt answered; the attempts before
    it failed on operational errors. *)
Lemma loop_ends_on_attempt fuel : ∀ i st,
  (turns fuel cur query params i st).2 ≠ OutOfFuel →
  ∃ mid r,
    st_trace (turns fuel cur query params i st).1
    = st_trace st ++ mid ++ [EvExecute cur query params r]
    ∧ Forall (failed_retry cur query params) mid
    ∧ (turns fuel cur query params i st).2 = answer cur r.
Proof.
  induction fuel as [|fuel IH]; intros i [w tr] Hend; [done|].
  destruct (drv_execute drv cur query params w) as [w' [e|]] eqn:Hrun.
  - destruct (is_OperationalError e) eqn:Hop.
    + destruct (decide (i + 1 = DB_RETRIES)) as [Hlast|Hmore].
      * rewrite (loop_gives_up _ _ _ _ _ _ _ _ _ _ Hrun Hop Hlast).
        by exists [], (Some e).
      * rewrite (loop_retries _ _ _ _ _ _ _ _ _ _ Hrun Hop Hmore) in Hend |- *.
        destruct (IH _ _ Hend) as (mid & r & Htr & Hmid & Hout).
        exists (retried cur query params i e ++ mid), r.
        rewrite Htr. cbn [st_trace]. rewrite <- !app_assoc. split; [done|].
        split; [|done].
        apply Forall_app. split; [by apply retried_failed_retry|done].
    + rewrite (loop_propagates _ _ _ _ _ _ _ _ _ _ Hrun Hop).
      by exists [], (Some e).
  - rewrite (loop_returns _ _ _ _ _ _ _ _ _ Hrun). by exists [], None.
Qed.

Lemma count_cons p (e : event) (l : list event) :
  count p (e :: l) = ((if p e then 1 else 0) + count p l)%nat.
Proof.
  unfold count. rewrite filter_cons.
  destruct (p e); by destruct (decide _).
Qed.

(** From the counter [i] on there are at most [DB_RETRIES - i] attempts
    and one sleep and one log entry less. *)
Lemma loop_counts fuel : ∀ i st,
  0 ≤ i < DB_RETRIES →
  ∃ mid,
    st_trace (turns fuel cur query params i st).1 = st_trace st ++ mid
    ∧ (Z.of_nat (count is_execute mid) ≤ DB_RETRIES - i)
    ∧ (Z.of_nat (count is_sleep mid) ≤ DB_RETRIES - i - 1)
    ∧ count is_retry_log mid = count is_sleep mid.
Proof.
  induction fuel as [|fuel IH]; intros i [w tr] Hi.
  { exists []. rewrite app_nil_r. unfold DB_RETRIES in *.
    repeat split; try done; change (count _ []) with 0%nat; lia. }
  destruct (drv_execute drv cur query params w) as [w' [e|]] eqn:Hrun.
  - destruct (is_OperationalError e) eqn:Hop.
    + destruct (decide (i + 1 = DB_RETRIES)) as [Hlast|Hmore].
      * rewrite (loop_gives_up _ _ _ _ _ _ _ _ _ _ Hrun Hop Hlast).
        eexists [_]. unfold DB_RETRIES in *.
        rewrite !count_cons. change (count _ []) with 0%nat.
        repeat split; simpl; lia.
      * rewrite (loop_retries _ _ _ _ _ _ _ _ _ _ Hrun Hop Hmore).
        destruct (IH (i + 1) (State (drv_sleep drv 1 w')
                                (tr ++ retried cur query params i e)))
          as (mid & Htr & Hexec & Hsleep & Hlog); [lia|].
        exists (retried cur query params i e ++ mid).
        rewrite Htr. cbn [st_trace]. rewrite <- !app_assoc. split; [done|].
        rewrite !(count_app _ (retried cur query params i e)).
        unfold retried. rewrite !count_cons.
        change (count _ []) with 0%nat. simpl.
        repeat split; lia.
    + rewrite (loop_propagates _ _ _ _ _ _ _ _ _ _ Hrun Hop).
      eexists [_]. unfold DB_RETRIES in *.
      rewrite !count_cons. change (count _ []) with 0%nat.
      repeat split; simpl; lia.
  - rewrite (loop_returns _ _ _ _ _ _ _ _ _ Hrun).
    eexists [_]. unfold DB_RETRIES in *.
    rewrite !count_cons. change (count _ []) with 0%nat.
    repeat split; simpl; lia.
Qed.

End RetryBounds.

Section RetryExtras.

Context {W : Type} (drv : Driver W).

(** X1: [_decode_utf8_values] gives back the values it is given, strings
    and others alike, in the same order. *)
Theorem decode_utf8_values_unchanged (values_list : list pyval) :
  _decode_utf8_values values_list = values_list.
Proof. unfold _decode_utf8_values. apply decode_loop_id. Qed.

(** X2: whatever the statement answers, [cursor_execute] comes to an end
    after at most 5 attempts and 4 sleeps, and it logs one message with
    the remaining retries for each sleep. *)
Theorem cursor_execute_is_bounded (fuel : nat) (cur : Cursor)
    (query : string) (params : option (list pyval)) (w : W) :
  (5 ≤ fuel)%nat →
  let run := cursor_execute drv fuel cur query params (State w []) in
  run.2 ≠ OutOfFuel
  ∧ (count is_execute (st_trace run.1) ≤ 5)%nat
  ∧ (count is_sleep (st_trace run.1) ≤ 4)%nat
  ∧ count is_retry_log (st_trace run.1) = count is_sleep (st_trace run.1).
Proof.
  intros Hfuel run. subst run. unfold cursor_execute. split.
  - apply loop_terminates; unfold DB_RETRIES; lia.
  - destruct (loop_counts drv cur query
                (match params with None => [] | Some p => p end) fuel 0
                (State w [])) as (mid & -> & Hexec & Hsleep & Hlog);
      [unfold DB_RETRIES; lia|].
    unfold DB_RETRIES in *. simpl. repeat split; lia.
Qed.

(** X3: the last thing [cursor_execute] does is an attempt, and the call
    returns the cursor when that attempt went through and raises the
    exception of that attempt when it did not; every attempt before it
    ran the same statement with the same parameters on the same cursor
    and failed on an operational error. *)
Theorem cursor_execute_ends_on_attempt (fuel : nat) (cur : Cursor)
    (query : string) (params : option (list pyval)) (w : W) :
  (5 ≤ fuel)%nat →
  let run := cursor_execute drv fuel cur query params (State w []) in
  ∃ mid r,
    st_trace run.1 = mid ++ [EvExecute cur query (default [] params) r]
    ∧ Forall (failed_retry cur query (default [] params)) mid
    ∧ run.2 = answer cur r.
Proof.
  intros Hfuel run. subst run. unfold cursor_execute.
  change (match params with None => [] | Some p => p end)
    with (default [] params).
  destruct (loop_ends_on_attempt drv cur query (default [] params) fuel 0
              (State w [])) as (mid & r & Htr & Hmid & Hout).
  - apply loop_terminates; unfold DB_RETRIES; lia.
  - by exists mid, r.
Qed.

End RetryExtras.

(** ** The [with] statement when the connection fails *)

Section WithFaults.

Context {W : Type} (drv : Driver W).

Lemma with_connect_fails {A} path (body : Cursor → M W A) w w1 e tr :
  drv_connect drv path w = (w1, inl e) →
  with_db_cursor drv (db_cursor__init__ path) body (State w tr)
  = (State w1 (tr ++ [EvConnect path (inl e)]), Raised e).
Proof.
  intros Hconn.
  unfold with_db_cursor, db_cursor__enter__, bind, sqlite3_connect. simpl.
  by rewrite Hconn.
Qed.

Lemma count_within_close cur mid :
  Forall (within cur) mid → count is_close mid = 0%nat.
Proof.
  induction 1 as [|e mid He _ IH]; [done|].
  rewrite count_cons, IH. by destruct e.
Qed.

Lemma with_commit_fails {A} path (body : Cursor → M W A) w w1 c e :
  drv_connect drv path w = (w1, inr c) →
  (∀ c' w', (drv_commit drv c' w').2 = Some e) →
  (∀ cur, confined (within cur) (body cur)) →
  left_open c e (with_db_cursor drv (db_cursor__init__ path) body (State w [])).
Proof.
  intros Hconn Hcommit Hbody. unfold with_db_cursor.
  destruct (drv_cursor drv c w1) as [w2 cur] eqn:Hcur.
  rewrite (enter_connected drv path w w1 c w2 cur [] Hconn Hcur).
  destruct (Hbody cur (State w2 ([] ++ [EvConnect path (inr c); EvCursor c cur])))
    as (mid & Htr & Hmid & Hend).
  destruct (body cur _) as [[w3 tr3] out]. simpl in Htr, Hend. subst tr3.
  unfold db_cursor__exit__, bind, connection_commit. simpl.
  specialize (Hcommit c w3).
  destruct (drv_commit drv c w3) as [w4 r]. simpl in Hcommit. subst r.
  assert (Hcount :
    count is_close
      (EvConnect path (inr c) :: EvCursor c cur :: mid ++ [EvCommit c (Some e)])
    = 0%nat).
  { rewrite !count_cons, count_app, count_cons, (count_within_close cur) by done.
    done. }
  assert (Hlast :
    last (EvConnect path (inr c) :: EvCursor c cur :: mid ++ [EvCommit c (Some e)])
    = Some (EvCommit c (Some e))).
  { change (EvConnect path (inr c) :: EvCursor c cur :: mid ++ [EvCommit c (Some e)])
      with (([EvConnect path (inr c); EvCursor c cur] ++ mid)
            ++ [EvCommit c (Some e)]).
    apply last_snoc. }
  destruct out as [a|e0|]; [| |done]; unfold emit; simpl; by repeat split.
Qed.

Lemma left_open_bind {A B} c e (m : M W A) (k : A → M W B) st :
  left_open c e (m st) → left_open c e (bind m k st).
Proof.
  unfold left_open, bind. destruct (m st) as [st1 [a|e'|]]; simpl.
  - by intros [? _].
  - intros ([= ->] & ? & ?). by repeat split.
  - by intros [? _].
Qed.

End WithFaults.

(** ** The helpers when the connection fails *)

Section HelperFaults.

Context {W : Type} (drv : Driver W).

Ltac on_cursor :=
  repeat first
    [ apply confined_ret
    | apply confined_raise
    | apply confined_lift
    | apply confined_py_assert
    | apply confined_getitem
    | apply confined_print; done
    | apply confined_lastrowid; done
    | apply confined_execute; done
    | apply confined_fetch_rows_and_names; done
    | eapply confined_weaken;
      [apply retrying_within|apply confined_cursor_execute; lia]
    | apply confined_try_except; [|intros ?]
    | apply confined_bind; [|intros ?] ].

(** X4: when [sqlite3.connect] raises, every function of the module
    that opens a connection raises the same exception at once: no
    statement is executed, nothing is committed or closed. *)
Theorem nothing_runs_without_connection (fuel : nat) (path : string)
    (w w1 : W) (e : exn) :
  drv_connect drv path w = (w1, inl e) →
  (∀ table fields,
     db_insert drv fuel path table fields (State w [])
     = (State w1 [EvConnect path (inl e)], Raised e))
  ∧ (∀ table updated_fields row,
       db_update drv fuel path table updated_fields row (State w [])
       = (State w1 [EvConnect path (inl e)], Raised e))
  ∧ (∀ table field value,
       db_delete drv fuel path table field value (State w [])
       = (State w1 [EvConnect path (inl e)], Raised e))
  ∧ (∀ table fields condition,
       db_select drv fuel path table fields condition (State w [])
       = (State w1 [EvConnect path (inl e)], Raised e))
  ∧ (∀ query params,
       db_query drv fuel path query params (State w [])
       = (State w1 [EvConnect path (inl e)], Raised e))
  ∧ (∀ tablename field name type,
       field !! "name" = Some name →
       field !! "type" = Some type →
       add_field drv path tablename field (State w [])
       = (State w1 [EvConnect path (inl e)], Raised e)).
Proof.
  intros Hconn. repeat split; intros.
  - unfold db_insert, bind. by rewrite (with_connect_fails drv _ _ _ _ _ _ Hconn).
  - unfold db_update. by rewrite (with_connect_fails drv _ _ _ _ _ _ Hconn).
  - unfold db_delete. by rewrite (with_connect_fails drv _ _ _ _ _ _ Hconn).
  - unfold db_select, bind. by rewrite (with_connect_fails drv _ _ _ _ _ _ Hconn).
  - unfold db_query, bind. by rewrite (with_connect_fails drv _ _ _ _ _ _ Hconn).
  - unfold add_field, dict_getitem.
    match goal with H : _ !! "name" = _ |- _ => rewrite H end.
    match goal with H : _ !! "type" = _ |- _ => rewrite H end.
    unfold bind at 1. unfold ret at 1. unfold bind at 1. unfold ret at 1.
    by rewrite (with_connect_fails drv _ _ _ _ _ _ Hconn).
Qed.

(** X5: when [commit] raises, [__exit__] never reaches [close]: each
    helper raises the exception of the commit, whatever its statement
    did, and leaves the connection open. *)
Theorem failed_commit_leaves_connection_open (fuel : nat) (path : string)
    (w w1 : W) (c : Connection) (e : exn) :
  (5 ≤ fuel)%nat →
  drv_connect drv path w = (w1, inr c) →
  (∀ c' w', (drv_commit drv c' w').2 = Some e) →
  (∀ table fields,
     left_open c e (db_insert drv fuel path table fields (State w [])))
  ∧ (∀ table updated_fields row,
       left_open c e
         (db_update drv fuel path table updated_fields row (State w [])))
  ∧ (∀ table field value,
       left_open c e (db_delete drv fuel path table field value (State w [])))
  ∧ (∀ table fields condition,
       left_open c e
         (db_select drv fuel path table fields condition (State w [])))
  ∧ (∀ query params,
       left_open c e (db_query drv fuel path query params (State w []))).
Proof.
  intros Hfuel Hconn Hcommit.
  refine (conj _ (conj _ (conj _ (conj _ _)))); intros.
  - unfold db_insert. apply left_open_bind.
    apply (with_commit_fails drv path _ w w1 c e Hconn Hcommit).
    intros cur. on_cursor.
  - unfold db_update.
    apply (with_commit_fails drv path _ w w1 c e Hconn Hcommit).
    intros cur. on_cursor.
  - unfold db_delete.
    apply (with_commit_fails drv path _ w w1 c e Hconn Hcommit).
    intros cur. on_cursor.
  - unfold db_select. apply left_open_bind.
    apply (with_commit_fails drv path _ w w1 c e Hconn Hcommit).
    intros cur. destruct (truthy condition); on_cursor.
  - unfold db_query. apply left_open_bind.
    apply (with_commit_fails drv path _ w w1 c e Hconn Hcommit).
    intros cur. on_cursor.
Qed.

(** X6: [add_field] scopes its connection like the other helpers: with
    the two keys of the field there, it opens one connection and commits
    and then closes it, whether the [ALTER TABLE] ran or raised. *)
Theorem add_field_scopes_its_connection (path tablename : string)
    (field : gmap string pyval) (name type : pyval) (w w1 : W)
    (c : Connection) :
  field !! "name" = Some name →
  field !! "type" = Some type →
  drv_connect drv path w = (w1, inr c) →
  (∀ c' w', (drv_commit drv c' w').2 = None) →
  scoped path (st_trace (add_field drv path tablename field (State w [])).1).
Proof.
  intros Hname Htype Hconn Hcommit.
  unfold add_field, dict_getitem. rewrite Hname, Htype.
  unfold bind at 1. unfold ret at 1. unfold bind at 1. unfold ret at 1.
  apply (with_db_cursor_scoped drv path _ w w1 c Hconn Hcommit).
  intros cur. on_cursor.
Qed.

(** X7: [add_field] on a field without the key ['name'], or with it and
    without the key ['type'], raises [KeyError] for the first key that is
    missing, before any connection is opened. *)
Theorem add_field_missing_key (path tablename : string)
    (field : gmap string pyval) (st : state W) :
  (field !! "name" = None →
   add_field drv path tablename field st = (st, Raised (KeyError "name")))
  ∧ (is_Some (field !! "name") → field !! "type" = None →
     add_field drv path tablename field st = (st, Raised (KeyError "type"))).
Proof.
  split.
  - intros Hname. unfold add_field, dict_getitem, bind. by rewrite Hname.
  - intros [name Hname] Htype.
    unfold add_field, dict_getitem, bind. by rewrite Hname, Htype.
Qed.

End HelperFaults.

(** ** The helpers when the statement goes through *)

Section HelperRuns.

Context {W : Type} (drv : Driver W).



(** X9: a condition of [db_select] that is neither empty nor a pair fails
    the assertion: [AssertionError] is raised inside the [with] statement,
    so a connection was opened and is committed and closed, and no
    statement is executed. *)
Theorem db_select_condition_not_a_pair (fuel : nat) (path table : string)
    (fields : option (list string)) (condition : list pyval) (w w1 w2 : W)
    (c : Connection) (cur : Cursor) :
  condition ≠ [] →
  length condition ≠ 2%nat →
  drv_connect drv path w = (w1, inr c) →
  drv_cursor drv c w1 = (w2, cur) →
  (drv_commit drv c w2).2 = None →
  db_select drv fuel path table fields (Some condition) (State w [])
  = (State (drv_close drv c (drv_commit drv c w2).1)
           [EvConnect path (inr c); EvCursor c cur;
            EvCommit c None; EvClose c],
     Raised AssertionError).
Proof.
  intros Hne Hlen Hconn Hcur Hcommit.
  unfold db_select. unfold bind at 1. unfold with_db_cursor.
  rewrite (enter_connected _ _ _ _ _ _ _ _ Hconn Hcur).
  assert (Htruthy : truthy (Some condition) = true) by by destruct condition.
  rewrite Htruthy. unfold bind at 1. unfold bind at 1.
  assert (Hassert : (length (default [] (Some condition)) =? 2)%nat = false)
    by by apply Nat.eqb_neq.
  rewrite Hassert. unfold py_assert, raise.
  by rewrite (exit_committed _ _ _ _ _ Hcommit).
Qed.


End HelperRuns.

(** ** The statements the helpers execute *)

Section Statements.

Context {W : Type} (drv : Driver W).

Lemma with_db_cursor_confined {A} (P : event → Prop) path
    (body : Cursor → M W A) :
  (∀ r, P (EvConnect path r)) →
  (∀ c cur, P (EvCursor c cur)) →
  (∀ c r, P (EvCommit c r)) →
  (∀ c, P (EvClose c)) →
  (∀ cur, confined P (body cur)) →
  confined P (with_db_cursor drv (db_cursor__init__ path) body).
Proof.
  intros Hconnect Hcursor Hcommit Hclose Hbody [w tr].
  unfold with_db_cursor, db_cursor__enter__, bind, sqlite3_connect,
    connection_cursor, ret. simpl.
  destruct (drv_connect drv path w) as [w1 [e|c]]; simpl.
  { eexists [_]. split; [done|]. split; [|done]. by repeat constructor. }
  destruct (drv_cursor drv c w1) as [w2 cur]. unfold emit. simpl.
  destruct (Hbody cur (State w2 ((tr ++ [EvConnect path (inr c)])
                                 ++ [EvCursor c cur])))
    as (mid & Htr & Hmid & Hend).
  destruct (body cur _) as [[w3 tr3] out]. simpl in Htr, Hend. subst tr3.
  unfold db_cursor__exit__, bind, connection_commit, connection_close, emit.
  simpl.
  destruct out as [a|e|]; [| |done];
    destruct (drv_commit drv c w3) as [w4 [e'|]]; simpl.
  - exists ([EvConnect path (inr c); EvCursor c cur] ++ mid
            ++ [EvCommit c (Some e')]).
    rewrite <- !app_assoc. split; [done|]. split; [|done].
    repeat (apply Forall_app; split); by repeat constructor.
  - exists ([EvConnect path (inr c); EvCursor c cur] ++ mid
            ++ [EvCommit c None; EvClose c]).
    rewrite <- !app_assoc. split; [done|]. split; [|done].
    repeat (apply Forall_app; split); by repeat constructor.
  - exists ([EvConnect path (inr c); EvCursor c cur] ++ mid
            ++ [EvCommit c (Some e')]).
    rewrite <- !app_assoc. split; [done|]. split; [|done].
    repeat (apply Forall_app; split); by repeat constructor.
  - exists ([EvConnect path (inr c); EvCursor c cur] ++ mid
            ++ [EvCommit c None; EvClose c]).
    rewrite <- !app_assoc. split; [done|]. split; [|done].
    repeat (apply Forall_app; split); by repeat constructor.
Qed.

Lemma retrying_statement_is cur query params e :
  retrying cur query params e → statement_is query params e.
Proof. destruct e; simpl; try done. by intros (_ & ? & ?). Qed.

(** A [with] statement whose body runs one statement through
    [cursor_execute] and then stays away from [execute]. *)
Ltac one_statement :=
  apply with_db_cursor_confined; try done; intros ?;
  repeat first
    [ apply confined_ret
    | apply confined_raise
    | apply confined_lift
    | apply confined_py_assert
    | apply confined_getitem
    | apply confined_print; done
    | apply confined_lastrowid; done
    | apply confined_fetch_rows_and_names; done
    | eapply confined_weaken;
      [apply retrying_statement_is|apply confined_cursor_execute; lia]
    | apply confined_try_except; [|intros ?]
    | apply confined_bind; [|intros ?] ].

Lemma confined_from_empty {A} (P : event → Prop) (m : M W A) w :
  confined P m → Forall P (st_trace (m (State w [])).1).
Proof. intros Hm. by destruct (Hm (State w [])) as (mid & -> & Hmid & _). Qed.

(** *** The placeholders of [db_insert] *)

Lemma length_append (a b : string) :
  String.length (a +:+ b) = (String.length a + String.length b)%nat.
Proof.
  induction a as [|x a IH]; [done|].
  rewrite append_cons. simpl. by rewrite IH.
Qed.

Lemma substring_append (a b : string) (k : nat) :
  substring 0 (String.length a + k) (a +:+ b) = a +:+ substring 0 k b.
Proof.
  induction a as [|x a IH]; [done|].
  rewrite !append_cons. simpl. by rewrite IH.
Qed.

Lemma length_repeat (n : nat) :
  String.length (PyString.repeat "?, " n) = (3 * n)%nat.
Proof.
  induction n as [|n IH]; [done|].
  cbn [PyString.repeat]. rewrite length_append, IH. simpl. lia.
Qed.

(** [("?, " * n)[:-2]] is [n] question marks with [", "] between them:
    one placeholder for each field. *)
Lemma placeholders_joined (n : nat) :
  PyString.drop_last 2 (PyString.repeat "?, " n)
  = PyString.join ", " (replicate n "?").
Proof.
  destruct n as [|n]; [done|].
  induction n as [|n IH]; [done|].
  unfold PyString.drop_last in *.
  change (PyString.repeat "?, " (S (S n)))
    with ("?, " +:+ PyString.repeat "?, " (S n)).
  rewrite length_append.
  rewrite length_repeat in *.
  replace (String.length "?, " + 3 * S n - 2)%nat
    with (String.length "?, " + (3 * S n - 2))%nat by (simpl; lia).
  rewrite substring_append, IH. done.
Qed.

Lemma insert_text table columns placeholders :
  PyString.format "insert into {0}({1}) values ({2})"
    [table; columns; placeholders]
  = "insert into " +:+ table +:+ "(" +:+ columns +:+ ") values ("
    +:+ placeholders +:+ ")".
Proof. done. Qed.

Lemma update_text table columns c :
  PyString.format "UPDATE {0} SET {1} WHERE {2}"
    [table; columns +:+ "=?"; PyString.format "{0}=?" [c]]
  = "UPDATE " +:+ table +:+ " SET " +:+ columns +:+ "=? WHERE " +:+ c +:+ "=?".
Proof. simpl. rewrite append_nil_r, !append_assoc. done. Qed.

Lemma delete_text table field :
  PyString.format "delete from {0} where {1}=?" [table; field]
  = "delete from " +:+ table +:+ " where " +:+ field +:+ "=?".
Proof. done. Qed.

Lemma select_where_text columns table c :
  PyString.format "SELECT {0} FROM {1} where {2}=?" [columns; table; c]
  = "SELECT " +:+ columns +:+ " FROM " +:+ table +:+ " where " +:+ c +:+ "=?".
Proof. done. Qed.

Lemma select_text columns table :
  PyString.format "SELECT {0} FROM {1}" [columns; table]
  = "SELECT " +:+ columns +:+ " FROM " +:+ table.
Proof. simpl. by rewrite append_nil_r. Qed.

(** X11: the only statement [db_insert] executes, at the first attempt
    and at every retry, is [insert into T(k1, ..., kn) values (?, ..., ?)]
    with the keys of the fields as columns, one placeholder for each
    field, and the values of the fields, in the order of the keys, as
    parameters. *)
Theorem db_insert_statement (fuel : nat) (path table : string)
    (fields : list (string * pyval)) (w : W) :
  (5 ≤ fuel)%nat →
  Forall
    (statement_is
       ("insert into " +:+ table +:+ "(" +:+ PyString.join ", " (keys fields)
        +:+ ") values ("
        +:+ PyString.join ", " (replicate (length fields) "?") +:+ ")")
       (values fields))
    (st_trace (db_insert drv fuel path table fields (State w [])).1).
Proof.
  intros Hfuel. unfold db_insert.
  rewrite decode_utf8_values_id, insert_text, placeholders_joined.
  rewrite bind_pure_trace by done.
  apply confined_from_empty. one_statement.
Qed.

(** X12: the only statement [db_update] executes is
    [UPDATE T SET k1=?, ..., kn=? WHERE c=?] with the values of the
    fields followed by the value of the condition as parameters;
    [db_delete] executes [delete from T where f=?] with the one value;
    [db_select] executes [SELECT columns FROM T where c=?] with the
    second member of a condition that is a pair, and
    [SELECT columns FROM T] without parameters when the condition is
    [None] or empty, the columns being the fields joined by [", "], or
    [*] when there are none. *)
Theorem helpers_statements (fuel : nat) (path : string) (w : W) :
  (5 ≤ fuel)%nat →
  (∀ table updated_fields row,
     Forall
       (statement_is
          ("UPDATE " +:+ table +:+ " SET "
           +:+ PyString.join "=?, " (keys updated_fields) +:+ "=? WHERE "
           +:+ py_str row.1 +:+ "=?")
          (values updated_fields ++ [row.2]))
       (st_trace
          (db_update drv fuel path table updated_fields row (State w [])).1))
  ∧ (∀ table field value,
       Forall
         (statement_is
            ("delete from " +:+ table +:+ " where " +:+ field +:+ "=?")
            [value])
         (st_trace (db_delete drv fuel path table field value (State w [])).1))
  ∧ (∀ table fields c0 c1,
       Forall
         (statement_is
            ("SELECT "
             +:+ (if truthy fields then PyString.join ", " (default [] fields)
                  else "*")
             +:+ " FROM " +:+ table +:+ " where " +:+ py_str c0 +:+ "=?")
            [c1])
         (st_trace
            (db_select drv fuel path table fields (Some [c0; c1])
               (State w [])).1))
  ∧ (∀ table fields condition,
       truthy condition = false →
       Forall
         (statement_is
            ("SELECT "
             +:+ (if truthy fields then PyString.join ", " (default [] fields)
                  else "*")
             +:+ " FROM " +:+ table)
            [])
         (st_trace
            (db_select drv fuel path table fields condition (State w [])).1)).
Proof.
  intros Hfuel. refine (conj _ (conj _ (conj _ _))); intros.
  - unfold db_update. rewrite decode_utf8_values_id, update_text.
    apply confined_from_empty. one_statement.
  - unfold db_delete. rewrite delete_text.
    apply confined_from_empty. one_statement.
  - unfold db_select. rewrite bind_pure_trace by (intros; apply lift_pure).
    apply confined_from_empty.
    apply with_db_cursor_confined; try done. intros cur.
    match goal with
    | |- confined ?P _ =>
        change (confined P
                  (cursor_execute drv fuel cur
                     ("SELECT "
                      +:+ (if truthy fields
                           then PyString.join ", " (default [] fields)
                           else "*")
                      +:+ " FROM " +:+ table +:+ " where " +:+ py_str c0
                      +:+ "=?")
                     (Some [c1]) ;;;
                   fetch_rows_and_names drv cur))
    end.
    apply confined_bind; [|intros ?; by apply confined_fetch_rows_and_names].
    eapply confined_weaken;
      [apply retrying_statement_is|apply confined_cursor_execute; lia].
  - unfold db_select. rewrite bind_pure_trace by (intros; apply lift_pure).
    apply confined_from_empty.
    apply with_db_cursor_confined; try done. intros cur.
    match goal with H : truthy _ = false |- _ => rewrite H end.
    rewrite select_text.
    match goal with
    | |- confined ?P _ =>
        change (confined P
                  (cursor_execute drv fuel cur
                     ("SELECT "
                      +:+ (if truthy fields
                           then PyString.join ", " (default [] fields)
                           else "*")
                      +:+ " FROM " +:+ table)
                     (Some []) ;;;
                   fetch_rows_and_names drv cur))
    end.
    apply confined_bind; [|intros ?; by apply confined_fetch_rows_and_names].
    eapply confined_weaken;
      [apply retrying_statement_is|apply confined_cursor_execute; lia].
Qed.

End Statements.

(** ** What [db_insert] prints *)

Section Prints.

Context {W : Type} (drv : Driver W).

Lemma prints_app (l1 l2 : list event) :
  prints (l1 ++ l2) = prints l1 ++ prints l2.
Proof.
  induction l1 as [|e l1 IH]; [done|].
  destruct e; simpl; by rewrite ?IH.
Qed.

(** The retry loop prints nothing, and one of its attempts raised an
    integrity error exactly when the loop raises one. *)
Lemma loop_prints_nothing cur query params fuel : ∀ i st,
  ∃ mid,
    st_trace (cursor_execute_loop drv fuel cur query params i st).1
    = st_trace st ++ mid
    ∧ prints mid = []
    ∧ existsb is_integrity_failure mid
      = match (cursor_execute_loop drv fuel cur query params i st).2 with
        | Raised e => is_IntegrityError e
        | _ => false
        end.
Proof.
  induction fuel as [|fuel IH]; intros i [w tr].
  { exists []. by rewrite app_nil_r. }
  destruct (drv_execute drv cur query params w) as [w' [e|]] eqn:Hrun.
  - destruct (is_OperationalError e) eqn:Hop.
    + destruct (decide (i + 1 = DB_RETRIES)) as [Hlast|Hmore].
      * rewrite (loop_gives_up _ _ _ _ _ _ _ _ _ _ Hrun Hop Hlast).
        eexists [_]. simpl. by rewrite orb_false_r.
      * rewrite (loop_retries _ _ _ _ _ _ _ _ _ _ Hrun Hop Hmore).
        destruct (IH (i + 1) (State (drv_sleep drv 1 w')
                                (tr ++ retried cur query params i e)))
          as (mid & Htr & Hprints & Hfails).
        exists (retried cur query params i e ++ mid).
        rewrite Htr. cbn [st_trace]. rewrite <- !app_assoc. split; [done|].
        rewrite prints_app, existsb_app, Hprints, Hfails.
        split; [done|]. by destruct e.
    + rewrite (loop_propagates _ _ _ _ _ _ _ _ _ _ Hrun Hop).
      eexists [_]. simpl. by rewrite orb_false_r.
  - rewrite (loop_returns _ _ _ _ _ _ _ _ _ Hrun). by eexists [_].
Qed.

Lemma exit_prints_nothing (self : db_cursor) (st : state W) :
  ∃ tail,
    st_trace (db_cursor__exit__ drv self st).1 = st_trace st ++ tail
    ∧ prints tail = []
    ∧ existsb is_integrity_failure tail = false.
Proof.
  unfold db_cursor__exit__. destruct (db_conn self) as [c|].
  - unfold bind, connection_commit, connection_close, emit.
    destruct (drv_commit drv c (st_world st)) as [w' [e|]]; simpl.
    + by exists [EvCommit c (Some e)].
    + exists [EvCommit c None; EvClose c]. by rewrite <- app_assoc.
  - exists []. by rewrite app_nil_r.
Qed.

(** The transcript of a [with] statement whose body left the state [st2]
    and the outcome [out]. *)
Lemma exit_after_body {A} (self : db_cursor) (st2 : state W)
    (out : outcome A) :
  ∃ tail,
    st_trace
      (match out with
       | Returned a =>
           match db_cursor__exit__ drv self st2 with
           | (st3, Returned _) => (st3, Returned a)
           | (st3, Raised e) => (st3, Raised e)
           | (st3, OutOfFuel) => (st3, OutOfFuel)
           end
       | Raised e =>
           match db_cursor__exit__ drv self st2 with
           | (st3, Returned _) => (st3, Raised e)
           | (st3, Raised e') => (st3, Raised e')
           | (st3, OutOfFuel) => (st3, OutOfFuel)
           end
       | OutOfFuel => (st2, OutOfFuel)
       end).1
    = st_trace st2 ++ tail
    ∧ prints tail = []
    ∧ existsb is_integrity_failure tail = false.
Proof.
  destruct (exit_prints_nothing self st2) as (tail & Htr & Hprints & Hfails).
  destruct out as [a|e|].
  - exists tail. by destruct (db_cursor__exit__ drv self st2) as [st3 [?|?|]].
  - exists tail. by destruct (db_cursor__exit__ drv self st2) as [st3 [?|?|]].
  - exists []. by rewrite app_nil_r.
Qed.

(** X13: what [db_insert] prints is decided by its attempts: nothing when
    none of them raised an integrity error, and when one did exactly two
    things, the columns joined by [", "] and then the values. *)
Theorem db_insert_prints_only_on_integrity_error (fuel : nat)
    (path table : string) (fields : list (string * pyval)) (w : W) :
  let tr := st_trace (db_insert drv fuel path table fields (State w [])).1 in
  prints tr
  = if existsb is_integrity_failure tr
    then [PrintStr (PyString.join ", " (keys fields));
          PrintTuple (values fields)]
    else [].
Proof.
  intros tr. assert (Htr : tr = tr) by done. unfold tr at 2 in Htr.
  clearbody tr. unfold db_insert in Htr.
  rewrite decode_utf8_values_id in Htr.
  rewrite bind_pure_trace in Htr by done.
  destruct (drv_connect drv path w) as [w1 [e|c]] eqn:Hconn.
  { rewrite (with_connect_fails drv _ _ _ _ _ _ Hconn) in Htr.
    by subst tr. }
  destruct (drv_cursor drv c w1) as [w2 cur] eqn:Hcur.
  unfold with_db_cursor in Htr.
  rewrite (enter_connected _ _ _ _ _ _ _ _ Hconn Hcur) in Htr.
  set (st1 := State w2 _) in Htr.
  set (query := PyString.format _ _) in Htr.
  set (self := {| db_path := _; db_conn := _ |}) in Htr.
  unfold bind at 1 in Htr. unfold try_except in Htr. unfold bind at 1 in Htr.
  unfold cursor_execute in Htr.
  destruct (loop_prints_nothing cur query (values fields) fuel 0 st1)
    as (mid & Hmid & Hprints & Hfails).
  cbn [default] in Htr.
  destruct (cursor_execute_loop drv fuel cur query (values fields) 0 st1)
    as [[w3 tr3] out]. cbn [fst snd st_trace] in Hmid, Hfails. subst tr3.
  subst st1. cbn [st_trace] in *.
  destruct out as [cur'|e|].
  - unfold ret at 1, cursor_lastrowid, emit in Htr.
    cbn [st_world st_trace] in Htr.
    match type of Htr with
    | context [db_cursor__exit__ drv self ?st2] =>
        destruct (exit_after_body self st2
                    (Returned (drv_lastrowid drv cur w3)))
          as (tail & Hexit & Htailp & Htailf)
    end.
    rewrite Hexit in Htr. subst tr. cbn [st_trace].
    rewrite !prints_app, !existsb_app, Hprints, Hfails, Htailp, Htailf.
    done.
  - destruct (is_IntegrityError e) eqn:Hint.
    + unfold bind, print, raise, emit in Htr.
      cbn [st_world st_trace] in Htr.
      match type of Htr with
      | context [db_cursor__exit__ drv self ?st2] =>
          destruct (exit_after_body (A:=pyval) self st2 (Raised e))
            as (tail & Hexit & Htailp & Htailf)
      end.
      rewrite Hexit in Htr. subst tr. cbn [st_trace].
      rewrite !prints_app, !existsb_app, Hprints, Hfails, Htailp, Htailf.
      done.
    + match type of Htr with
      | context [db_cursor__exit__ drv self ?st2] =>
          destruct (exit_after_body (A:=pyval) self st2 (Raised e))
            as (tail & Hexit & Htailp & Htailf)
      end.
      rewrite Hexit in Htr. subst tr. cbn [st_trace].
      rewrite !prints_app, !existsb_app, Hprints, Hfails, Htailp, Htailf.
      done.
  - subst tr. cbn [fst st_trace].
    rewrite !prints_app, !existsb_app, Hprints, Hfails. done.
Qed.

End Prints.

(** ** Rows shorter than the description *)

Section ShortRows.

Lemma row_data_loop_long_enough (names : list string) (row : list pyval) :
  ∀ k acc,
    (k + length names ≤ length row)%nat →
    ∃ m, row_data_loop (zip (seq k (length names)) names) row acc = inr m.
Proof.
  induction names as [|name names IH]; intros k acc Hlen; simpl in *.
  - by exists acc.
  - destruct (lookup_lt_is_Some_2 row k) as [v Hv]; [lia|].
    rewrite Hv. apply IH. lia.
Qed.

Lemma row_data_loop_too_short (names : list string) (row : list pyval) :
  ∀ k acc,
    (k ≤ length row)%nat →
    (length row < k + length names)%nat →
    row_data_loop (zip (seq k (length names)) names) row acc
    = inl (IndexError "tuple index out of range").
Proof.
  induction names as [|name names IH]; intros k acc Hk Hlen; simpl in *.
  - lia.
  - destruct (row !! k) as [v|] eqn:Hv; [|done].
    apply lookup_lt_Some in Hv. apply IH; lia.
Qed.

Lemma results_loop_long_enough (names : list string) rows : ∀ acc,
  Forall (λ row : list pyval, (length names ≤ length row)%nat) rows →
  ∃ results, results_loop rows names acc = inr results.
Proof.
  induction rows as [|row rows IH]; intros acc Hrows; simpl.
  - by exists acc.
  - apply Forall_cons in Hrows as [Hrow Hrows].
    destruct (row_data_loop_long_enough names row 0 ∅) as [m Hm]; [done|].
    unfold enumerate. rewrite Hm. by apply IH.
Qed.

Lemma results_loop_too_short (names : list string) rows : ∀ acc,
  ¬ Forall (λ row : list pyval, (length names ≤ length row)%nat) rows →
  results_loop rows names acc = inl (IndexError "tuple index out of range").
Proof.
  induction rows as [|row rows IH]; intros acc Hrows; simpl.
  - by destruct Hrows.
  - destruct (decide (length names ≤ length row)%nat) as [Hrow|Hrow].
    + destruct (row_data_loop_long_enough names row 0 ∅) as [m Hm]; [done|].
      unfold enumerate. rewrite Hm. apply IH.
      intros Hrest. apply Hrows. by constructor.
    + unfold enumerate.
      rewrite (row_data_loop_too_short names row 0 ∅) by lia. done.
Qed.

(** X14: the loops that turn the fetched rows into mappings come to a
    result exactly when every row has at least as many values as there
    are column names; with a shorter row they raise [IndexError]. *)
Theorem results_loop_needs_long_rows (rows : list (list pyval))
    (column_names : list string) :
  ((∃ results, results_loop rows column_names [] = inr results)
   ↔ Forall (λ row, (length column_names ≤ length row)%nat) rows)
  ∧ ((∃ e, results_loop rows column_names [] = inl e)
     → results_loop rows column_names []
       = inl (IndexError "tuple index out of range")).
Proof.
  destruct (decide (Forall (λ row : list pyval,
                      (length column_names ≤ length row)%nat) rows))
    as [Hlong|Hshort].
  - destruct (results_loop_long_enough column_names rows [] Hlong)
      as [results Hresults].
    rewrite Hresults. split; [split; eauto|]. by intros [e ?].
  - rewrite (results_loop_too_short column_names rows [] Hshort).
    split; [|done]. split; [by intros [? ?]|done].
Qed.

End ShortRows.

(** ** [add_field] when the statement goes through *)

Section AddField.

Context {W : Type} (drv : Driver W).

Lemma alter_text tablename name type :
  PyString.percent "ALTER TABLE %s ADD COLUMN %s %s" [tablename; name; type]
  = "ALTER TABLE " +:+ tablename +:+ " ADD COLUMN " +:+ name +:+ " " +:+ type.
Proof. simpl. by rewrite append_nil_r. Qed.

(** X15: with both keys there, [add_field] executes
    [ALTER TABLE T ADD COLUMN name type] once, without parameters; when
    the statement goes through it commits, closes and returns [None]. *)
Theorem add_field_runs_alter_table (path tablename : string)
    (field : gmap string pyval) (name type : pyval) (w w1 w2 w3 : W)
    (c : Connection) (cur : Cursor) :
  let query :=
    "ALTER TABLE " +:+ tablename +:+ " ADD COLUMN " +:+ py_str name
    +:+ " " +:+ py_str type in
  field !! "name" = Some name →
  field !! "type" = Some type →
  drv_connect drv path w = (w1, inr c) →
  drv_cursor drv c w1 = (w2, cur) →
  drv_execute drv cur query [] w2 = (w3, None) →
  (drv_commit drv c w3).2 = None →
  add_field drv path tablename field (State w [])
  = (State (drv_close drv c (drv_commit drv c w3).1)
           [EvConnect path (inr c); EvCursor c cur;
            EvExecute cur query [] None;
            EvCommit c None; EvClose c],
     Returned tt).
Proof.
  intros query Hname Htype Hconn Hcur Hexec Hcommit.
  unfold add_field, dict_getitem. rewrite Hname, Htype.
  unfold bind at 1. unfold ret at 1. unfold bind at 1. unfold ret at 1.
  rewrite alter_text. fold query. unfold with_db_cursor.
  rewrite (enter_connected _ _ _ _ _ _ _ _ Hconn Hcur).
  unfold bind at 1. unfold cursor_dot_execute. cbn [st_world st_trace].
  rewrite Hexec. unfold emit, ret.
  by rewrite (exit_committed _ _ _ _ _ Hcommit).
Qed.

End AddField.

(** ** More runs on the example database *)

Section MoreRuns.

Import Engine Example Faults.

Local Open Scope nat_scope.

(** Locked once, then a statement on a table that is not there. *)
Lemma cursor_execute_is_bounded_witness :
  let run :=
    cursor_execute driver 5 0 "delete from runners where id=?"
      (Some [PyInt 2]) (State (connected [true]) []) in
  run.2 ≠ OutOfFuel
  ∧ count is_execute (st_trace run.1) ≤ 5
  ∧ count is_sleep (st_trace run.1) ≤ 4
  ∧ count is_retry_log (st_trace run.1) = count is_sleep (st_trace run.1).
Proof. apply (cursor_execute_is_bounded driver 5). lia. Defined.

Lemma cursor_execute_ends_on_attempt_witness :
  let run :=
    cursor_execute driver 5 0 "delete from games where id=?"
      (Some [PyInt 2]) (State (connected [true; true]) []) in
  ∃ mid r,
    st_trace run.1
    = mid ++ [EvExecute 0 "delete from games where id=?"
                (default [] (Some [PyInt 2])) r]
    ∧ Forall (failed_retry 0 "delete from games where id=?"
                (default [] (Some [PyInt 2]))) mid
    ∧ run.2 = answer 0 r.
Proof. apply (cursor_execute_ends_on_attempt driver 5). lia. Defined.

Lemma nothing_runs_without_connection_witness :
  db_delete offline 5 "pga.db" "games" "id" (PyInt 2) (State (idle []) [])
  = (State (idle []) [EvConnect "pga.db" (inl no_file)], Raised no_file).
Proof.
  apply (nothing_runs_without_connection offline 5 "pga.db" (idle [])
           (idle []) no_file).
  reflexivity.
Defined.

Lemma failed_commit_leaves_connection_open_witness :
  left_open 0 locked
    (db_delete commit_locked 5 "pga.db" "games" "id" (PyInt 2)
       (State (idle []) [])).
Proof.
  apply (failed_commit_leaves_connection_open commit_locked 5 "pga.db"
           (idle []) (connect "pga.db" (idle [])).1 0 locked);
    [lia|reflexivity|reflexivity].
Defined.

Lemma add_field_scopes_its_connection_witness :
  scoped "pga.db"
    (st_trace
       (add_field driver "pga.db" "games"
          {["name" := PyStr "year"; "type" := PyStr "INTEGER"]}
          (State (idle []) [])).1).
Proof.
  apply (add_field_scopes_its_connection driver "pga.db" "games" _
           (PyStr "year") (PyStr "INTEGER") (idle [])
           (connect "pga.db" (idle [])).1 0);
    [reflexivity|reflexivity|reflexivity|apply commit_goes_through].
Defined.

Lemma add_field_missing_key_witness :
  add_field driver "pga.db" "games" {["name" := PyStr "year"]}
    (State (idle []) [])
  = (State (idle []) [], Raised (KeyError "type")).
Proof.
  apply (add_field_missing_key driver "pga.db" "games");
    [by eexists|reflexivity].
Defined.


Lemma db_select_condition_not_a_pair_witness :
  ∃ st',
    db_select driver 5 "pga.db" "games" None (Some [PyStr "id"])
      (State (idle []) [])
    = (st', Raised AssertionError)
    ∧ count is_execute (st_trace st') = 0.
Proof.
  eexists. split.
  - apply (db_select_condition_not_a_pair driver 5 "pga.db" "games" None
             [PyStr "id"] (idle []) (connect "pga.db" (idle [])).1
             (connect "pga.db" (idle [])).1 0 0);
      [done|done|reflexivity|reflexivity|apply commit_goes_through].
  - reflexivity.
Defined.


(** Locked once, then the constraint on [slug]. *)
Lemma db_insert_prints_only_on_integrity_error_witness :
  prints
    (st_trace
       (db_insert driver 5 "pga.db" "games"
          [("name", PyStr "Doom 2"); ("slug", PyStr "doom")]
          (State (idle [true]) [])).1)
  = [PrintStr "name, slug"; PrintTuple [PyStr "Doom 2"; PyStr "doom"]].
Proof.
  rewrite (db_insert_prints_only_on_integrity_error driver 5 "pga.db" "games"
             [("name", PyStr "Doom 2"); ("slug", PyStr "doom")]
             (idle [true])).
  vm_compute. reflexivity.
Defined.

Lemma db_insert_statement_witness :
  Forall
    (statement_is "insert into games(name, slug) values (?, ?)"
       [PyStr "Doom 2"; PyStr "doom2"])
    (st_trace
       (db_insert driver 5 "pga.db" "games"
          [("name", PyStr "Doom 2"); ("slug", PyStr "doom2")]
          (State (idle [true]) [])).1).
Proof.
  apply (db_insert_statement driver 5 "pga.db" "games"
           [("name", PyStr "Doom 2"); ("slug", PyStr "doom2")]).
  lia.
Defined.

Lemma helpers_statements_witness :
  Forall
    (statement_is "UPDATE games SET name=?, slug=? WHERE id=?"
       [PyStr "Quake II"; PyStr "quake2"; PyInt 1])
    (st_trace
       (db_update driver 5 "pga.db" "games"
          [("name", PyStr "Quake II"); ("slug", PyStr "quake2")]
          (PyStr "id", PyInt 1) (State (idle [true]) [])).1).
Proof.
  apply (proj1 (helpers_statements driver 5 "pga.db" (idle [true])
                  ltac:(lia))
           "games" [("name", PyStr "Quake II"); ("slug", PyStr "quake2")]
           (PyStr "id", PyInt 1)).
Defined.

Lemma add_field_runs_alter_table_witness :
  ∃ st',
    add_field driver "pga.db" "games"
      {["name" := PyStr "year"; "type" := PyStr "INTEGER"]}
      (State (idle []) [])
    = (st', Returned tt)
    ∧ tbl_columns <$> (db_at (disk (st_world st')) "pga.db" !! "games")
      = Some ["id"; "name"; "slug"; "year"].
Proof.
  eexists. split.
  - eapply add_field_runs_alter_table;
      [reflexivity|reflexivity|reflexivity|reflexivity|vm_compute; reflexivity
      |apply commit_goes_through].
  - vm_compute. reflexivity.
Defined.

End MoreRuns.

(** ** The helpers on the reference engine *)

Section OnEngine.

Import Engine.

(** The retry loop on the engine, by its outcome: when it returns, one
    run of the statement made the transaction and the cursor what they
    are; when it does not, the transaction is as it was.  The files are
    not written. *)
Lemma loop_on_engine_outcome cur query params h path db0 fuel : ∀ i w tr,
  session w = Some (h, path, db0) →
  let run := cursor_execute_loop driver fuel cur query params i (State w tr) in
  disk (st_world run.1) = disk w
  ∧ match run.2 with
    | Returned _ =>
        ∃ eff,
          run_query query params db0 = inr eff
          ∧ session (st_world run.1) = Some (h, path, eff_db eff)
          ∧ ∀ id, eff_lastrowid eff = Some id →
                  cur_lastrowid (st_world run.1) = PyInt id
    | _ => session (st_world run.1) = Some (h, path, db0)
    end.
Proof.
  induction fuel as [|fuel IH]; intros i w tr Hs; [done|].
  destruct (drv_execute driver cur query params w) as [w1 r] eqn:Hrun.
  assert (Hw1 : disk w1 = disk w
    ∧ match r with
      | Some _ => session w1 = Some (h, path, db0)
      | None =>
          ∃ eff, run_query query params db0 = inr eff
                 ∧ session w1 = Some (h, path, eff_db eff)
                 ∧ ∀ id, eff_lastrowid eff = Some id →
                         cur_lastrowid w1 = PyInt id
      end).
  { simpl in Hrun. unfold execute in Hrun. simpl in Hrun. rewrite Hs in Hrun.
    destruct (hd false (busy w)); [by injection Hrun as <- <-|].
    destruct (run_query query params db0) as [e|eff];
      [by injection Hrun as <- <-|].
    injection Hrun as <- <-. simpl. split; [done|].
    exists eff. split; [done|]. split; [done|]. by intros id ->. }
  destruct Hw1 as [Hdisk Hsession].
  destruct r as [e|].
  - destruct (is_OperationalError e) eqn:Hop.
    + destruct (decide (i + 1 = DB_RETRIES)) as [Hlast|Hmore].
      * by rewrite (loop_gives_up _ _ _ _ _ _ _ _ _ _ Hrun Hop Hlast).
      * rewrite (loop_retries _ _ _ _ _ _ _ _ _ _ Hrun Hop Hmore).
        destruct (IH (i + 1) (drv_sleep driver 1 w1)
                    (tr ++ retried cur query params i e)) as [Hdisk' Hout];
          [done|].
        split; [by rewrite Hdisk'|done].
    + by rewrite (loop_propagates _ _ _ _ _ _ _ _ _ _ Hrun Hop).
  - by rewrite (loop_returns _ _ _ _ _ _ _ _ _ Hrun).
Qed.

(** A helper that runs one statement in a [with] statement and returns
    [None]: all of the statement is committed, or nothing of it. *)
Lemma statement_on_engine fuel path query params w :
  let run :=
    with_db_cursor driver (db_cursor__init__ path)
      (λ cursor,
         cursor_execute driver fuel cursor query (Some params) ;;; ret tt)
      (State w []) in
  match run.2 with
  | Returned _ =>
      ∃ eff,
        run_query query params (db_at (disk w) path) = inr eff
        ∧ disk (st_world run.1) = <[path:=eff_db eff]> (disk w)
  | Raised _ =>
      disk (st_world run.1) = <[path:=db_at (disk w) path]> (disk w)
  | OutOfFuel => disk (st_world run.1) = disk w
  end.
Proof.
  intros run. subst run. unfold with_db_cursor.
  rewrite (enter_connected driver path w (connect path w).1 (next_handle w)
             (connect path w).1 (next_handle w)) by done.
  unfold cursor_execute, bind.
  destruct (loop_on_engine_outcome (next_handle w) query params
              (next_handle w) path (db_at (disk w) path) fuel 0
              (connect path w).1
              ([] ++ [EvConnect path (inr (next_handle w));
                      EvCursor (next_handle w) (next_handle w)]))
    as (Hdisk & Hout); [done|].
  destruct (cursor_execute_loop driver fuel _ _ _ _ _) as [[w3 tr3] out].
  simpl in Hdisk, Hout.
  destruct out as [a|e|].
  - destruct Hout as (eff & Hrun & Hsession & _).
    cbv beta iota delta [ret]. rewrite exit_committed;
      [|simpl; unfold commit; by rewrite Hsession].
    simpl. exists eff. split; [done|].
    unfold commit. rewrite Hsession. simpl. by rewrite Hdisk.
  - cbv beta iota. rewrite exit_committed;
      [|simpl; unfold commit; by rewrite Hout].
    simpl. unfold commit. rewrite Hout. simpl. by rewrite Hdisk.
  - done.
Qed.

(** *** [db_delete] *)

Lemma parse_delete_query table field :
  is_identifier table = true →
  is_identifier field = true →
  parse (PyString.format "delete from {0} where {1}=?" [table; field])
  = Some (Delete table field).
Proof.
  intros Ht Hf. unfold parse.
  change (PyString.format "delete from {0} where {1}=?" [table; field])
    with ("delete" +:+ String " " ("from" +:+ String " " (table +:+ String " "
            ("where" +:+ String " " (field +:+ String "=" (String "?" "")))))).
  rewrite (lex_identifier_space "delete" _
             [TWord "from"; TWord table; TWord "where"; TWord field;
              TEq; TParam]); [done|done|].
  apply lex_identifier_space; [done|].
  apply lex_identifier_space; [done|].
  apply lex_identifier_space; [done|].
  by apply lex_assignment.
Qed.

Lemma exec_delete_rows t c v db eff :
  exec_delete t c [v] db = inr eff →
  ∃ tb j,
    db !! t = Some tb
    ∧ column_index (tbl_columns tb) c = Some j
    ∧ eff_db eff
      = <[t:=with_rows tb (filter (λ r, matches j v r = false) (tbl_rows tb))]>
          db.
Proof.
  unfold exec_delete.
  destruct (db !! t) as [tb|]; [|done]. simpl.
  destruct (column_index (tbl_columns tb) c) as [j|] eqn:Hj; [|done]. simpl.
  intros [= <-]. by exists tb, j.
Qed.

(** X16: on the engine, for names that are plain identifiers: when
    [db_delete] returns, the table is what it was without the rows that
    the condition selects, the other rows in their order; when it raises,
    the file holds what it held.  No other file is written. *)
Theorem db_delete_removes_matching_rows (fuel : nat)
    (path table field : string) (value : pyval) (w : world) :
  is_identifier table = true →
  is_identifier field = true →
  let before := db_at (disk w) path in
  let run := db_delete driver fuel path table field value (State w []) in
  let after := db_at (disk (st_world run.1)) path in
  (∀ path', path' ≠ path →
            disk (st_world run.1) !! path' = disk w !! path')
  ∧ match run.2 with
    | Returned _ =>
        ∃ tb j,
          before !! table = Some tb
          ∧ column_index (tbl_columns tb) field = Some j
          ∧ after
            = <[table:=with_rows tb
                         (filter (λ r, matches j value r = false)
                                 (tbl_rows tb))]> before
    | _ => after = before
    end.
Proof.
  intros Htable Hfield before run after. subst after run before.
  unfold db_delete.
  pose proof (statement_on_engine fuel path
                (PyString.format "delete from {0} where {1}=?" [table; field])
                [value] w) as Hrun.
  cbv zeta in Hrun.
  destruct (with_db_cursor driver _ _ _) as [[w' tr'] out].
  cbn [fst snd st_world] in *.
  destruct out as [a|e|].
  - destruct Hrun as (eff & Hq & ->).
    split; [intros path' Hne; by rewrite lookup_insert_ne|].
    unfold run_query in Hq. rewrite parse_delete_query in Hq by done.
    simpl in Hq. apply exec_delete_rows in Hq as (tb & j & Htb & Hj & ->).
    exists tb, j. split; [done|]. split; [done|].
    unfold db_at at 1. by rewrite lookup_insert_eq.
  - rewrite Hrun.
    split; [intros path' Hne; by rewrite lookup_insert_ne|].
    unfold db_at at 1. by rewrite lookup_insert_eq.
  - by rewrite Hrun.
Qed.

(** *** [db_update] *)

Import Effects.

Lemma foldl_assign_lookup jvs (j : nat) (v : pyval) : ∀ cells,
  NoDup jvs.*1 → (j, v) ∈ jvs → (j < length cells)%nat →
  foldl assign cells jvs !! j = Some v.
Proof.
  induction jvs as [|[j0 v0] jvs IH]; intros cells Hdup Hin Hlt.
  - by apply elem_of_nil in Hin.
  - simpl in Hdup. apply NoDup_cons in Hdup as [Hfresh Hdup].
    apply elem_of_cons in Hin as [[= <- <-]|Hin]; simpl.
    + rewrite foldl_assign_lookup_ne by done.
      unfold assign. simpl. by apply list_lookup_insert_eq.
    + apply IH; [done|done|]. unfold assign. by rewrite length_insert.
Qed.

(** Distinct names have distinct columns. *)
Lemma column_indexes_distinct (columns names : list string) idxs :
  mapM (column_index columns) names = Some idxs →
  NoDup names → NoDup idxs.
Proof.
  intros Hidxs%mapM_Some Hdup. apply NoDup_alt. intros a b j Ha Hb.
  destruct (Forall2_lookup_r _ _ _ _ _ Hidxs Ha) as (ka & Hka & Hia).
  destruct (Forall2_lookup_r _ _ _ _ _ Hidxs Hb) as (kb & Hkb & Hib).
  apply column_index_lookup in Hia, Hib.
  assert (ka = kb) as -> by congruence.
  by apply (NoDup_lookup names a b kb).
Qed.

(** The cells of a row after the values of [fields] were assigned at the
    columns of their keys. *)
Lemma assigned_holds tb (fields : list (string * pyval)) idxs cells rowid :
  mapM (column_index (tbl_columns tb)) (keys fields) = Some idxs →
  NoDup (keys fields) →
  length cells = length (tbl_columns tb) →
  holds tb fields (rowid, foldl assign cells (zip idxs (values fields))).
Proof.
  intros Hidxs Hdup Hlen k v Hin.
  pose proof (column_indexes_distinct _ _ _ Hidxs Hdup) as Hnodup.
  apply mapM_Some in Hidxs.
  apply list_elem_of_lookup in Hin as (i & Hi).
  assert (Hk : keys fields !! i = Some k)
    by (unfold keys; by rewrite list_lookup_fmap, Hi).
  assert (Hv : values fields !! i = Some v)
    by (unfold values; by rewrite list_lookup_fmap, Hi).
  destruct (Forall2_lookup_l _ _ _ _ _ Hidxs Hk) as (j & Hj & Hindex).
  exists j. split; [done|]. simpl.
  assert (Hsame : length idxs = length (values fields)).
  { rewrite <- (Forall2_length _ _ _ Hidxs). unfold keys, values.
    by rewrite !length_fmap. }
  apply foldl_assign_lookup.
  - by rewrite fst_zip by lia.
  - apply list_elem_of_lookup. exists i. by rewrite lookup_zip_with, Hj, Hv.
  - rewrite Hlen. apply column_index_lookup in Hindex.
    by apply lookup_lt_Some in Hindex.
Qed.

Lemma exec_update_rows t cols c params db eff :
  exec_update t cols c params db = inr eff →
  ∃ tb j idxs,
    db !! t = Some tb
    ∧ column_index (tbl_columns tb) c = Some j
    ∧ mapM (column_index (tbl_columns tb)) cols = Some idxs
    ∧ eff_db eff
      = <[t:=with_rows tb
               (map (update_row j (default PyNone (last params)) idxs
                       (take (length cols) params))
                    (tbl_rows tb))]> db.
Proof.
  unfold exec_update.
  destruct (db !! t) as [tb|]; [|done]. simpl.
  destruct (mapM (column_index (tbl_columns tb)) cols) as [idxs|] eqn:Hidxs;
    [|done]. simpl.
  destruct (column_index (tbl_columns tb) c) as [j|] eqn:Hj; [|done]. simpl.
  destruct (_ =? _)%nat; [|done]. simpl.
  destruct (unique_ok _); [|done]. simpl.
  intros [= <-]. by exists tb, j, idxs.
Qed.

(** X17: on the engine, for names that are plain identifiers and fields
    with distinct keys: when [db_update] returns, every row that the
    condition selects holds the values of the fields in their columns
    (the rows having one cell for each column); when it raises, the file
    holds what it held. *)
Theorem db_update_sets_values (fuel : nat) (path table : string)
    (updated_fields : list (string * pyval)) (row : pyval * pyval)
    (w : world) :
  is_identifier table = true →
  Forall (λ c, is_identifier c = true) (keys updated_fields) →
  is_identifier (py_str row.1) = true →
  NoDup (keys updated_fields) →
  let before := db_at (disk w) path in
  let run :=
    db_update driver fuel path table updated_fields row (State w []) in
  let after := db_at (disk (st_world run.1)) path in
  match run.2 with
  | Returned _ =>
      ∃ tb tb',
        before !! table = Some tb
        ∧ after = <[table:=tb']> before
        ∧ (well_formed tb →
           Forall2
             (λ r r', targeted tb (py_str row.1) row.2 r →
                      holds tb updated_fields r')
             (tbl_rows tb) (tbl_rows tb'))
  | _ => after = before
  end.
Proof.
  intros Htable Hkeys Hcolumn Hdup before run after. subst after run before.
  unfold db_update. rewrite decode_utf8_values_id.
  pose proof (statement_on_engine fuel path
                (PyString.format "UPDATE {0} SET {1} WHERE {2}"
                   [table; PyString.join "=?, " (keys updated_fields) +:+ "=?";
                    PyString.format "{0}=?" [py_str row.1]])
                (values updated_fields ++ [row.2]) w) as Hrun.
  cbv zeta in Hrun.
  destruct (with_db_cursor driver _ _ _) as [[w' tr'] out].
  cbn [fst snd st_world] in *.
  destruct out as [a|e|].
  - destruct Hrun as (eff & Hq & ->).
    unfold run_query in Hq. rewrite parse_update_query in Hq by done.
    destruct (decide (keys updated_fields = [])); [done|].
    simpl in Hq.
    apply exec_update_rows in Hq as (tb & j & idxs & Htb & Hj & Hidxs & ->).
    eexists tb, _. split; [done|].
    split; [unfold db_at at 1; by rewrite lookup_insert_eq|].
    intros Hwf. simpl.
    apply Forall2_fmap_r, Forall_Forall2_diag.
    eapply Forall_impl; [exact Hwf|].
    intros r Hlen (j' & Hj' & Hmatch).
    assert (j' = j) as -> by congruence.
    unfold update_row. rewrite last_snoc. simpl. rewrite Hmatch.
    assert (Hnew : take (length (keys updated_fields))
                     (values updated_fields ++ [row.2])
                   = values updated_fields).
    { rewrite take_app_length'; [done|].
      unfold keys, values. by rewrite !length_fmap. }
    rewrite Hnew. by apply assigned_holds.
  - rewrite Hrun. unfold db_at at 1. by rewrite lookup_insert_eq.
  - by rewrite Hrun.
Qed.

(** *** [db_insert] *)

Lemma lex_identifier_lparen id s ts :
  is_identifier id = true →
  lex "" s = Some ts →
  lex "" (id +:+ String "(" s) = Some (TWord id :: TLParen :: ts).
Proof.
  intros Hid Hs. rewrite lex_identifier by done.
  simpl. rewrite Hs. simpl. by rewrite flush_identifier.
Qed.

Lemma lex_identifier_rparen id s ts :
  is_identifier id = true →
  lex "" s = Some ts →
  lex "" (id +:+ String ")" s) = Some (TWord id :: TRParen :: ts).
Proof.
  intros Hid Hs. rewrite lex_identifier by done.
  simpl. rewrite Hs. simpl. by rewrite flush_identifier.
Qed.

Lemma lex_identifier_comma id s ts :
  is_identifier id = true →
  lex "" s = Some ts →
  lex "" (id +:+ String "," (String " " s)) = Some (TWord id :: TComma :: ts).
Proof.
  intros Hid Hs. rewrite lex_identifier by done.
  simpl. rewrite Hs. simpl. by rewrite flush_identifier.
Qed.

Lemma lex_names (names : list string) s ts :
  names ≠ [] →
  Forall (λ c, is_identifier c = true) names →
  lex "" s = Some ts →
  lex "" (PyString.join ", " names +:+ String ")" s)
  = Some (name_tokens names ++ TRParen :: ts).
Proof.
  intros Hne Hnames Hs. induction Hnames as [|c names Hc Hnames IH]; [done|].
  destruct names as [|c' names].
  - by apply lex_identifier_rparen.
  - change (PyString.join ", " (c :: c' :: names))
      with (c +:+ ", " +:+ PyString.join ", " (c' :: names)).
    rewrite !append_assoc, !append_cons, append_nil_l.
    change (name_tokens (c :: c' :: names) ++ TRParen :: ts)
      with (TWord c :: TComma :: (name_tokens (c' :: names) ++ TRParen :: ts)).
    apply lex_identifier_comma; [done|]. by apply IH.
Qed.

Lemma lex_placeholders (n : nat) s ts :
  lex "" s = Some ts →
  lex "" (PyString.join ", " (replicate (S n) "?") +:+ String ")" s)
  = Some (placeholder_tokens (S n) ++ TRParen :: ts).
Proof.
  intros Hs. induction n as [|n IH].
  - simpl. by rewrite Hs.
  - change (PyString.join ", " (replicate (S (S n)) "?"))
      with ("?" +:+ ", " +:+ PyString.join ", " (replicate (S n) "?")).
    rewrite !append_assoc, !append_cons, !append_nil_l.
    change (placeholder_tokens (S (S n)) ++ TRParen :: ts)
      with (TParam :: TComma :: (placeholder_tokens (S n) ++ TRParen :: ts)).
    simpl lex. simpl lex in IH. by rewrite IH.
Qed.

Lemma parse_names_tokens (names : list string) rest :
  names ≠ [] →
  parse_names (name_tokens names ++ TRParen :: rest)
  = Some (names, TRParen :: rest).
Proof.
  intros Hne. induction names as [|c names IH]; [done|].
  destruct names as [|c' names]; [done|].
  change (name_tokens (c :: c' :: names))
    with (TWord c :: TComma :: name_tokens (c' :: names)).
  cbn [app parse_names]. by rewrite IH.
Qed.

Lemma parse_placeholders_tokens (n : nat) :
  parse_placeholders (placeholder_tokens (S n) ++ [TRParen])
  = Some (S n, [TRParen]).
Proof.
  induction n as [|n IH]; [done|].
  change (placeholder_tokens (S (S n)))
    with (TParam :: TComma :: placeholder_tokens (S n)).
  cbn [app parse_placeholders]. by rewrite IH.
Qed.

Lemma parse_insert_query table (names : list string) :
  is_identifier table = true →
  Forall (λ c, is_identifier c = true) names →
  parse (PyString.format "insert into {0}({1}) values ({2})"
           [table; PyString.join ", " names;
            PyString.join ", " (replicate (length names) "?")])
  = if decide (names = []) then None
    else Some (Insert table names (length names)).
Proof.
  intros Ht Hnames. unfold parse.
  change (PyString.format "insert into {0}({1}) values ({2})"
            [table; PyString.join ", " names;
             PyString.join ", " (replicate (length names) "?")])
    with ("insert" +:+ String " " ("into" +:+ String " " (table +:+ String "("
            (PyString.join ", " names +:+ String ")" (String " "
               ("values" +:+ String " " (String "("
                  (PyString.join ", " (replicate (length names) "?")
                   +:+ String ")" "")))))))).
  destruct (decide (names = [])) as [->|Hne].
  - rewrite (lex_identifier_space "insert" _
               [TWord "into"; TWord table; TLParen; TRParen; TWord "values";
                TLParen; TRParen]); [done|done|].
    apply lex_identifier_space; [done|].
    by apply lex_identifier_lparen.
  - destruct names as [|c names]; [done|].
    rewrite (lex_identifier_space "insert" _
               (TWord "into" :: TWord table :: TLParen
                :: name_tokens (c :: names)
                ++ TRParen :: TWord "values" :: TLParen
                :: placeholder_tokens (length (c :: names)) ++ [TRParen]));
      [|done|].
    + cbn [mbind option_bind parse_tokens].
      change (keyword "INSERT" (TWord "insert")) with true.
      cbn [parse_insert].
      change (keyword "INSERT" (TWord "insert")) with true.
      change (keyword "INTO" (TWord "into")) with true.
      cbn [andb]. rewrite parse_names_tokens by done.
      change (keyword "VALUES" (TWord "values")) with true. cbv iota.
      cbn [length]. by rewrite parse_placeholders_tokens.
    + apply lex_identifier_space; [done|].
      apply lex_identifier_lparen; [done|].
      apply lex_names; [done|done|].
      apply lex_space. apply lex_identifier_space; [done|].
      cbn [length].
      change (lex "" (String "(" (PyString.join ", "
                                    (replicate (S (length names)) "?")
                                  +:+ String ")" "")))
        with ((λ ts, TLParen :: ts)
              <$> lex "" (PyString.join ", " (replicate (S (length names)) "?")
                          +:+ String ")" "")).
      by rewrite (lex_placeholders _ "" []).
Qed.

Lemma exec_insert_row t cols n params db eff :
  exec_insert t cols n params db = inr eff →
  ∃ tb idxs,
    db !! t = Some tb
    ∧ mapM (column_index (tbl_columns tb)) cols = Some idxs
    ∧ length params = length cols
    ∧ eff_lastrowid eff = Some (next_rowid tb)
    ∧ eff_db eff
      = <[t:=with_rows tb
               (tbl_rows tb
                ++ [(next_rowid tb,
                     foldl assign (replicate (length (tbl_columns tb)) PyNone)
                           (zip idxs params))])]> db.
Proof.
  unfold exec_insert.
  destruct (db !! t) as [tb|]; [|done]. simpl.
  destruct (mapM (column_index (tbl_columns tb)) cols) as [idxs|] eqn:Hidxs;
    [|done]. simpl.
  destruct (n =? length cols)%nat eqn:Hn; [|done]. simpl.
  destruct (length params =? n)%nat eqn:Hparams; [|done]. simpl.
  destruct (unique_ok _); [|done]. simpl.
  intros [= <-]. exists tb, idxs.
  apply Nat.eqb_eq in Hn, Hparams. repeat split; try done. congruence.
Qed.

(** The [with] statement of [db_insert] on the engine: the row is
    committed and its rowid returned, or nothing is committed. *)
Lemma insert_on_engine fuel path query params columns w :
  let run :=
    with_db_cursor driver (db_cursor__init__ path)
      (λ cursor,
         try_except
           (cursor_execute driver fuel cursor query (Some params) ;;; ret tt)
           is_IntegrityError
           (λ ex,
              print (PrintStr columns) ;;;
              print (PrintTuple params) ;;;
              raise ex) ;;;
         cursor_lastrowid driver cursor)
      (State w []) in
  match run.2 with
  | Returned v =>
      ∃ eff,
        run_query query params (db_at (disk w) path) = inr eff
        ∧ disk (st_world run.1) = <[path:=eff_db eff]> (disk w)
        ∧ ∀ id, eff_lastrowid eff = Some id → v = PyInt id
  | Raised _ =>
      disk (st_world run.1) = <[path:=db_at (disk w) path]> (disk w)
  | OutOfFuel => disk (st_world run.1) = disk w
  end.
Proof.
  intros run. subst run. unfold with_db_cursor.
  rewrite (enter_connected driver path w (connect path w).1 (next_handle w)
             (connect path w).1 (next_handle w)) by done.
  unfold cursor_execute, try_except, bind.
  destruct (loop_on_engine_outcome (next_handle w) query params
              (next_handle w) path (db_at (disk w) path) fuel 0
              (connect path w).1
              ([] ++ [EvConnect path (inr (next_handle w));
                      EvCursor (next_handle w) (next_handle w)]))
    as (Hdisk & Hout); [done|].
  destruct (cursor_execute_loop driver fuel _ _ _ _ _) as [[w3 tr3] out].
  simpl in Hdisk, Hout.
  destruct out as [a|e|].
  - destruct Hout as (eff & Hrun & Hsession & Hid).
    cbv beta iota delta [ret cursor_lastrowid emit]. cbn [st_world st_trace].
    rewrite exit_committed; [|simpl; unfold commit; by rewrite Hsession].
    simpl. exists eff. split; [done|]. split; [|exact Hid].
    unfold commit. rewrite Hsession. simpl. by rewrite Hdisk.
  - destruct (is_IntegrityError e);
      cbv beta iota delta [print raise emit]; cbn [st_world st_trace];
      (rewrite exit_committed; [|simpl; unfold commit; by rewrite Hout]);
      simpl; unfold commit; rewrite Hout; simpl; by rewrite Hdisk.
  - done.
Qed.

Lemma bind_ret_r {W A} (m : M W A) (st : state W) :
  bind m (λ a, ret a) st = m st.
Proof. unfold bind, ret. by destruct (m st) as [st' [a|e|]]. Qed.

(** X18: on the engine, for names that are plain identifiers and fields
    with distinct keys: when [db_insert] returns, it returns the rowid of
    a row that it added at the end of the table, which holds the values
    of the fields in their columns and [NULL] in the others; the rows
    that were there are as they were.  When it raises, the file holds
    what it held. *)
Theorem db_insert_adds_row (fuel : nat) (path table : string)
    (fields : list (string * pyval)) (w : world) :
  is_identifier table = true →
  Forall (λ c, is_identifier c = true) (keys fields) →
  NoDup (keys fields) →
  let before := db_at (disk w) path in
  let run := db_insert driver fuel path table fields (State w []) in
  let after := db_at (disk (st_world run.1)) path in
  match run.2 with
  | Returned v =>
      ∃ tb r,
        before !! table = Some tb
        ∧ v = PyInt r.1
        ∧ r.1 = next_rowid tb
        ∧ after = <[table:=with_rows tb (tbl_rows tb ++ [r])]> before
        ∧ holds tb fields r
        ∧ null_elsewhere tb fields r
  | _ => after = before
  end.
Proof.
  intros Htable Hkeys Hdup before run after. subst after run before.
  unfold db_insert.
  rewrite decode_utf8_values_id, placeholders_joined.
  pose proof (insert_on_engine fuel path
                (PyString.format "insert into {0}({1}) values ({2})"
                   [table; PyString.join ", " (keys fields);
                    PyString.join ", " (replicate (length fields) "?")])
                (values fields) (PyString.join ", " (keys fields)) w) as Hrun.
  cbv zeta in Hrun. rewrite bind_ret_r.
  destruct (with_db_cursor driver _ _ _) as [[w' tr'] out].
  cbn [fst snd st_world] in *.
  destruct out as [v|e|].
  - destruct Hrun as (eff & Hq & -> & Hid).
    unfold run_query in Hq.
    replace (length fields) with (length (keys fields)) in Hq
      by (unfold keys; by rewrite length_fmap).
    rewrite parse_insert_query in Hq by done.
    destruct (decide (keys fields = [])); [done|].
    simpl in Hq.
    apply exec_insert_row in Hq as (tb & idxs & Htb & Hidxs & Hlen & Hlast & ->).
    eexists tb, (_, _). split; [done|].
    split; [by apply Hid|]. split; [done|].
    split; [unfold db_at at 1; by rewrite lookup_insert_eq|].
    split.
    + apply assigned_holds; [done|done|]. by rewrite length_replicate.
    + intros j name Hj Hname. simpl.
      rewrite foldl_assign_lookup_ne.
      * apply lookup_replicate_2. by apply lookup_lt_Some in Hj.
      * intros Hin. apply Hname.
        apply list_elem_of_fmap in Hin as ([j' x] & -> & Hin). simpl in *.
        apply elem_of_zip_l in Hin.
        apply mapM_Some in Hidxs.
        apply list_elem_of_lookup in Hin as (i & Hi).
        destruct (Forall2_lookup_r _ _ _ _ _ Hidxs Hi) as (col & Hcol & Hindex).
        apply column_index_lookup in Hindex.
        assert (col = name) as -> by congruence.
        by apply list_elem_of_lookup_2 in Hcol.
  - rewrite Hrun. unfold db_at at 1. by rewrite lookup_insert_eq.
  - by rewrite Hrun.
Qed.

(** *** [add_field] *)

Lemma lex_identifier_end id :
  is_identifier id = true → lex "" id = Some [TWord id].
Proof.
  intros Hid. rewrite <- (append_nil_r id) at 1.
  rewrite lex_identifier by done. simpl. by rewrite flush_identifier.
Qed.

Lemma parse_alter_query tablename name type :
  is_identifier tablename = true →
  is_identifier name = true →
  is_identifier type = true →
  parse (PyString.percent "ALTER TABLE %s ADD COLUMN %s %s"
           [tablename; name; type])
  = Some (AlterAddColumn tablename name type).
Proof.
  intros Ht Hn Hty. unfold parse. rewrite alter_text.
  change ("ALTER TABLE " +:+ tablename +:+ " ADD COLUMN " +:+ name +:+ " "
          +:+ type)
    with ("ALTER" +:+ String " " ("TABLE" +:+ String " " (tablename +:+ String " "
            ("ADD" +:+ String " " ("COLUMN" +:+ String " "
               (name +:+ String " " type)))))).
  rewrite (lex_identifier_space "ALTER" _
             [TWord "TABLE"; TWord tablename; TWord "ADD"; TWord "COLUMN";
              TWord name; TWord type]); [done|done|].
  do 5 (apply lex_identifier_space; [done|]).
  by apply lex_identifier_end.
Qed.

Lemma exec_alter_column t name db eff :
  exec_alter t name [] db = inr eff →
  ∃ tb,
    db !! t = Some tb
    ∧ (name ∉ tbl_columns tb)
    ∧ eff_db eff = <[t:=with_column tb name]> db.
Proof.
  unfold exec_alter.
  destruct (db !! t) as [tb|]; [|done]. simpl.
  destruct (bool_decide (name ∈ tbl_columns tb)) eqn:Hin; [done|]. simpl.
  intros [= <-]. exists tb. split; [done|]. split; [|done].
  by apply bool_decide_eq_false in Hin.
Qed.

(** The [with] statement of [add_field] on the engine. *)
Lemma alter_on_engine path query w :
  let run :=
    with_db_cursor driver (db_cursor__init__ path)
      (λ cursor, cursor_dot_execute driver cursor query [] ;;; ret tt)
      (State w []) in
  match run.2 with
  | Returned _ =>
      ∃ eff,
        run_query query [] (db_at (disk w) path) = inr eff
        ∧ disk (st_world run.1) = <[path:=eff_db eff]> (disk w)
  | _ => disk (st_world run.1) = <[path:=db_at (disk w) path]> (disk w)
  end.
Proof.
  intros run. subst run. unfold with_db_cursor.
  rewrite (enter_connected driver path w (connect path w).1 (next_handle w)
             (connect path w).1 (next_handle w)) by done.
  unfold bind, cursor_dot_execute. cbn [st_world st_trace].
  simpl drv_execute. unfold execute. simpl session. simpl hd.
  destruct (hd false (busy w)).
  - cbv beta iota delta [emit]. rewrite exit_committed by done. done.
  - destruct (run_query query [] (db_at (disk w) path)) as [e|eff] eqn:Hq.
    + cbv beta iota delta [emit]. rewrite exit_committed by done. done.
    + cbv beta iota delta [emit ret]. rewrite exit_committed by done.
      simpl. by exists eff.
Qed.

(** X19: on the engine, for names that are plain identifiers: when
    [add_field] returns, the table has the new column after the columns
    it had, and every row that was there has [NULL] in it and its other
    cells as they were; when it raises, as it does when the column is
    there already, the file holds what it held. *)
Theorem add_field_adds_column (path tablename : string)
    (field : gmap string pyval) (name type : pyval) (w : world) :
  field !! "name" = Some name →
  field !! "type" = Some type →
  is_identifier tablename = true →
  is_identifier (py_str name) = true →
  is_identifier (py_str type) = true →
  let before := db_at (disk w) path in
  let run := add_field driver path tablename field (State w []) in
  let after := db_at (disk (st_world run.1)) path in
  match run.2 with
  | Returned _ =>
      ∃ tb,
        before !! tablename = Some tb
        ∧ (py_str name ∉ tbl_columns tb)
        ∧ after = <[tablename:=with_column tb (py_str name)]> before
  | _ => after = before
  end.
Proof.
  intros Hname Htype Ht Hn Hty before run after. subst after run before.
  assert (Hrun :
    add_field driver path tablename field (State w [])
    = with_db_cursor driver (db_cursor__init__ path)
        (λ cursor,
           cursor_dot_execute driver cursor
             (PyString.percent "ALTER TABLE %s ADD COLUMN %s %s"
                [tablename; py_str name; py_str type]) [] ;;; ret tt)
        (State w [])).
  { unfold add_field, dict_getitem. by rewrite Hname, Htype. }
  rewrite Hrun. clear Hrun.
  pose proof (alter_on_engine path
                (PyString.percent "ALTER TABLE %s ADD COLUMN %s %s"
                   [tablename; py_str name; py_str type]) w) as Hrun.
  cbv zeta in Hrun.
  destruct (with_db_cursor driver _ _ _) as [[w' tr'] out].
  cbn [fst snd st_world] in *.
  destruct out as [a|e|].
  - destruct Hrun as (eff & Hq & ->).
    unfold run_query in Hq. rewrite parse_alter_query in Hq by done.
    simpl in Hq. apply exec_alter_column in Hq as (tb & Htb & Hfresh & ->).
    exists tb. split; [done|]. split; [done|].
    unfold db_at at 1. by rewrite lookup_insert_eq.
  - rewrite Hrun. unfold db_at at 1. by rewrite lookup_insert_eq.
  - rewrite Hrun. unfold db_at at 1. by rewrite lookup_insert_eq.
Qed.

(** *** [db_select] *)

Lemma lex_names_space (names : list string) s ts :
  names ≠ [] →
  Forall (λ c, is_identifier c = true) names →
  lex "" s = Some ts →
  lex "" (PyString.join ", " names +:+ String " " s)
  = Some (name_tokens names ++ ts).
Proof.
  intros Hne Hnames Hs. induction Hnames as [|c names Hc Hnames IH]; [done|].
  destruct names as [|c' names].
  - by apply lex_identifier_space.
  - change (PyString.join ", " (c :: c' :: names))
      with (c +:+ ", " +:+ PyString.join ", " (c' :: names)).
    rewrite !append_assoc, !append_cons, append_nil_l.
    change (name_tokens (c :: c' :: names) ++ ts)
      with (TWord c :: TComma :: (name_tokens (c' :: names) ++ ts)).
    apply lex_identifier_comma; [done|]. by apply IH.
Qed.

Lemma parse_names_then (names : list string) rest :
  names ≠ [] →
  (∀ rest', rest ≠ TComma :: rest') →
  parse_names (name_tokens names ++ rest) = Some (names, rest).
Proof.
  intros Hne Hrest. induction names as [|c names IH]; [done|].
  destruct names as [|c' names].
  - simpl. destruct rest as [|[] rest]; try done. by destruct (Hrest rest).
  - change (name_tokens (c :: c' :: names))
      with (TWord c :: TComma :: name_tokens (c' :: names)).
    cbn [app parse_names]. by rewrite IH.
Qed.

Lemma lex_star s ts :
  lex "" s = Some ts → lex "" (String "*" s) = Some (TStar :: ts).
Proof. intros Hs. simpl. by rewrite Hs. Qed.

Lemma lex_table_where table c :
  is_identifier table = true →
  from_option (λ c, is_identifier c = true) True c →
  lex "" (table +:+ where_text c) = Some (TWord table :: where_tokens c).
Proof.
  intros Ht Hc. destruct c as [c|]; simpl in Hc.
  - change (where_text (Some c))
      with (String " " ("where" +:+ String " " (c +:+ String "=" (String "?" "")))).
    apply lex_identifier_space; [done|].
    apply lex_identifier_space; [done|]. by apply lex_assignment.
  - unfold where_text. rewrite append_nil_r. by apply lex_identifier_end.
Qed.

Lemma parse_where_tokens c : parse_where (where_tokens c) = Some c.
Proof. by destruct c. Qed.

Lemma parse_select_query (fields : option (list string)) table c :
  is_identifier table = true →
  from_option (Forall (λ c, is_identifier c = true)) True fields →
  from_option (λ c, is_identifier c = true) True c →
  parse ("SELECT "
         +:+ (if truthy fields then PyString.join ", " (default [] fields)
              else "*")
         +:+ " FROM " +:+ table +:+ where_text c)
  = Some (Select (if truthy fields then fields else None) table c).
Proof.
  intros Ht Hfields Hc. unfold parse.
  pose proof (lex_table_where table c Ht Hc) as Htail.
  destruct (truthy fields) eqn:Htruthy.
  - destruct fields as [[|f fields]|]; try done. simpl in Hfields.
    change ("SELECT " +:+ PyString.join ", " (default [] (Some (f :: fields)))
            +:+ " FROM " +:+ table +:+ where_text c)
      with ("SELECT" +:+ String " " (PyString.join ", " (f :: fields)
              +:+ String " " ("FROM" +:+ String " " (table +:+ where_text c)))).
    rewrite (lex_identifier_space "SELECT" _
               (name_tokens (f :: fields)
                ++ TWord "FROM" :: TWord table :: where_tokens c));
      [|done|].
    + cbn [mbind option_bind parse_tokens].
      change (keyword "INSERT" (TWord "SELECT")) with false.
      change (keyword "UPDATE" (TWord "SELECT")) with false.
      change (keyword "DELETE" (TWord "SELECT")) with false.
      change (keyword "SELECT" (TWord "SELECT")) with true.
      cbv iota.
      assert (Hparse :
        parse_select (TWord "SELECT"
                      :: name_tokens (f :: fields)
                      ++ TWord "FROM" :: TWord table :: where_tokens c)
        = match parse_names (name_tokens (f :: fields)
                             ++ TWord "FROM" :: TWord table :: where_tokens c)
          with
          | Some (cols, kw2 :: TWord t :: rest') =>
              if keyword "FROM" kw2
              then Select (Some cols) t <$> parse_where rest'
              else None
          | _ => None
          end).
      { destruct fields; reflexivity. }
      rewrite Hparse, parse_names_then by done.
      change (keyword "FROM" (TWord "FROM")) with true. cbv iota.
      by rewrite parse_where_tokens.
    + apply lex_names_space; [done|done|].
      by apply lex_identifier_space.
  - change ("SELECT " +:+ "*" +:+ " FROM " +:+ table +:+ where_text c)
      with ("SELECT" +:+ String " " (String "*" (String " "
              ("FROM" +:+ String " " (table +:+ where_text c))))).
    rewrite (lex_identifier_space "SELECT" _
               (TStar :: TWord "FROM" :: TWord table :: where_tokens c));
      [|done|].
    + cbn [mbind option_bind parse_tokens].
      change (keyword "INSERT" (TWord "SELECT")) with false.
      change (keyword "UPDATE" (TWord "SELECT")) with false.
      change (keyword "DELETE" (TWord "SELECT")) with false.
      change (keyword "SELECT" (TWord "SELECT")) with true.
      cbv iota. cbn [parse_select].
      change (keyword "SELECT" (TWord "SELECT")) with true.
      change (keyword "FROM" (TWord "FROM")) with true.
      cbn [andb]. by rewrite parse_where_tokens.
    + apply lex_star, lex_space. by apply lex_identifier_space.
Qed.

Lemma exec_select_rows cols t c params db eff :
  exec_select cols t c params db = inr eff →
  ∃ tb idxs,
    db !! t = Some tb
    ∧ mapM (column_index (tbl_columns tb)) (default (tbl_columns tb) cols)
      = Some idxs
    ∧ eff_db eff = db
    ∧ eff_description eff
      = Some (map (λ name, (name, replicate 6 PyNone))
                  (default (tbl_columns tb) cols))
    ∧ eff_rows eff
      = map (λ r : Z * list pyval, map (cell r.2) idxs)
            (selected tb ((λ c, (c, default PyNone (last params))) <$> c)).
Proof.
  unfold exec_select.
  destruct (db !! t) as [tb|]; [|done]. simpl.
  destruct (mapM (column_index (tbl_columns tb)) (default (tbl_columns tb) cols))
    as [idxs|] eqn:Hidxs; [|done]. simpl.
  destruct c as [c|]; simpl.
  - destruct (column_index (tbl_columns tb) c) as [j|] eqn:Hj; [|done]. simpl.
    destruct (_ =? _)%nat; [|done]. simpl.
    intros [= <-]. exists tb, idxs. simpl. by rewrite Hj.
  - destruct (_ =? _)%nat; [|done]. simpl.
    intros [= <-]. by exists tb, idxs.
Qed.

(** The retry loop on the engine: what the cursor holds when the loop
    returns. *)
Lemma loop_on_engine_results cur query params h path db0 fuel : ∀ i w tr,
  session w = Some (h, path, db0) →
  let run := cursor_execute_loop driver fuel cur query params i (State w tr) in
  disk (st_world run.1) = disk w
  ∧ match run.2 with
    | Returned _ =>
        ∃ eff,
          run_query query params db0 = inr eff
          ∧ session (st_world run.1) = Some (h, path, eff_db eff)
          ∧ cur_rows (st_world run.1) = eff_rows eff
          ∧ cur_description (st_world run.1) = eff_description eff
    | _ => session (st_world run.1) = Some (h, path, db0)
    end.
Proof.
  induction fuel as [|fuel IH]; intros i w tr Hs; [done|].
  destruct (drv_execute driver cur query params w) as [w1 r] eqn:Hrun.
  assert (Hw1 : disk w1 = disk w
    ∧ match r with
      | Some _ => session w1 = Some (h, path, db0)
      | None =>
          ∃ eff, run_query query params db0 = inr eff
                 ∧ session w1 = Some (h, path, eff_db eff)
                 ∧ cur_rows w1 = eff_rows eff
                 ∧ cur_description w1 = eff_description eff
      end).
  { simpl in Hrun. unfold execute in Hrun. simpl in Hrun. rewrite Hs in Hrun.
    destruct (hd false (busy w)); [by injection Hrun as <- <-|].
    destruct (run_query query params db0) as [e|eff];
      [by injection Hrun as <- <-|].
    injection Hrun as <- <-. simpl. split; [done|]. by exists eff. }
  destruct Hw1 as [Hdisk Hsession].
  destruct r as [e|].
  - destruct (is_OperationalError e) eqn:Hop.
    + destruct (decide (i + 1 = DB_RETRIES)) as [Hlast|Hmore].
      * by rewrite (loop_gives_up _ _ _ _ _ _ _ _ _ _ Hrun Hop Hlast).
      * rewrite (loop_retries _ _ _ _ _ _ _ _ _ _ Hrun Hop Hmore).
        destruct (IH (i + 1) (drv_sleep driver 1 w1)
                    (tr ++ retried cur query params i e)) as [Hdisk' Hout];
          [done|].
        split; [by rewrite Hdisk'|done].
    + by rewrite (loop_propagates _ _ _ _ _ _ _ _ _ _ Hrun Hop).
  - by rewrite (loop_returns _ _ _ _ _ _ _ _ _ Hrun).
Qed.

(** The [with] statement of [db_select] and [db_query] on the engine:
    either the statement never ran and nothing changed, or it ran once
    and what it did is committed, whether its results could be read or
    not. *)
Lemma fetch_on_engine fuel path query params w st' out :
  with_db_cursor driver (db_cursor__init__ path)
    (λ cursor,
       cursor_execute driver fuel cursor query (Some params) ;;;
       fetch_rows_and_names driver cursor)
    (State w []) = (st', out) →
  (out = OutOfFuel ∧ disk (st_world st') = disk w)
  ∨ ((∃ e, out = Raised e)
     ∧ disk (st_world st') = <[path:=db_at (disk w) path]> (disk w))
  ∨ ∃ eff,
      run_query query params (db_at (disk w) path) = inr eff
      ∧ disk (st_world st') = <[path:=eff_db eff]> (disk w)
      ∧ match eff_description eff with
        | Some d => out = Returned (eff_rows eff, map fst d)
        | None => ∃ e, out = Raised e
        end.
Proof.
  unfold with_db_cursor.
  rewrite (enter_connected driver path w (connect path w).1 (next_handle w)
             (connect path w).1 (next_handle w)) by done.
  unfold cursor_execute. unfold bind at 1.
  destruct (loop_on_engine_results (next_handle w) query params
              (next_handle w) path (db_at (disk w) path) fuel 0
              (connect path w).1
              ([] ++ [EvConnect path (inr (next_handle w));
                      EvCursor (next_handle w) (next_handle w)]))
    as (Hdisk & Hout); [done|].
  destruct (cursor_execute_loop driver fuel _ _ _ _ _) as [[w3 tr3] out3].
  simpl in Hdisk, Hout.
  destruct out3 as [a|e|].
  - destruct Hout as (eff & Hrun & Hsession & Hrows & Hdesc).
    unfold fetch_rows_and_names, bind, cursor_fetchall, cursor_description,
      db_cursor__exit__, connection_commit, connection_close, emit, ret, raise.
    simpl. unfold commit. simpl. rewrite Hdesc, Hrows, Hsession.
    destruct (eff_description eff) as [d|] eqn:Hd; simpl.
    + intros [= <- <-]. right. right. exists eff. rewrite Hd.
      simpl. by rewrite Hdisk.
    + intros [= <- <-]. right. right. exists eff. rewrite Hd.
      simpl. rewrite Hdisk. split; [done|]. split; [done|]. by eexists.
  - cbv beta iota.
    rewrite exit_committed; [|simpl; unfold commit; by rewrite Hout].
    intros [= <- <-]. right. left. split; [by eexists|].
    simpl. unfold commit. rewrite Hout. simpl. by rewrite Hdisk.
  - intros [= <- <-]. by left.
Qed.

Lemma last_occurrence (names : list string) name :
  name ∈ names →
  ∃ i, names !! i = Some name ∧ ∀ i', (i < i')%nat → names !! i' ≠ Some name.
Proof.
  induction names as [|x names IH]; intros Hin; [by apply elem_of_nil in Hin|].
  destruct (decide (name ∈ names)) as [Hrest|Hrest].
  - destruct (IH Hrest) as (i & Hi & Hlast). exists (S i). split; [done|].
    intros [|i'] Hlt; [lia|]. simpl. apply Hlast. lia.
  - apply elem_of_cons in Hin as [->|Hin]; [|done].
    exists 0%nat. split; [done|].
    intros [|i'] Hlt; [lia|]. simpl. intros Hi'.
    by apply list_elem_of_lookup_2 in Hi'.
Qed.

Lemma row_mapping_shows tb names idxs (r : Z * list pyval) m :
  mapM (column_index (tbl_columns tb)) names = Some idxs →
  row_mapping names (map (cell r.2) idxs) m →
  shows tb names r m.
Proof.
  intros Hidxs%mapM_Some [Hdom Hrow]. split; [done|].
  intros name j Hin Hj.
  destruct (last_occurrence names name Hin) as (i & Hi & Hlast).
  destruct (Hrow i name Hi Hlast) as [_ ->].
  destruct (Forall2_lookup_l _ _ _ _ _ Hidxs Hi) as (j' & Hj' & Hindex).
  rewrite list_lookup_fmap, Hj'. simpl. congruence.
Qed.

(** X20: on the engine, for names that are plain identifiers:
    [db_select] leaves the file as it was, and when it returns it
    returns, in their order, one mapping for each row of the table that
    the condition selects (every row when there is no condition), which
    takes each selected column (every column when there are no fields) to
    the cell of the row in it. *)
Theorem db_select_returns_selected_rows (fuel : nat) (path table : string)
    (fields : option (list string)) (cond : option (pyval * pyval))
    (w : world) :
  is_identifier table = true →
  from_option (Forall (λ c, is_identifier c = true)) True fields →
  from_option (λ c : pyval * pyval, is_identifier (py_str c.1) = true)
              True cond →
  let before := db_at (disk w) path in
  let run :=
    db_select driver fuel path table fields
      ((λ c : pyval * pyval, [c.1; c.2]) <$> cond) (State w []) in
  let after := db_at (disk (st_world run.1)) path in
  after = before
  ∧ match run.2 with
    | Returned results =>
        ∃ tb,
          before !! table = Some tb
          ∧ Forall2
              (shows tb (if truthy fields then default [] fields
                         else tbl_columns tb))
              (selected tb ((λ c : pyval * pyval, (py_str c.1, c.2)) <$> cond))
              results
    | _ => True
    end.
Proof.
  intros Htable Hfields Hcond before run after. subst after run before.
  set (text :=
    "SELECT "
    +:+ (if truthy fields then PyString.join ", " (default [] fields) else "*")
    +:+ " FROM " +:+ table
    +:+ where_text ((λ c : pyval * pyval, py_str c.1) <$> cond)).
  set (params := from_option (λ c : pyval * pyval, [c.2]) [] cond).
  set (m :=
    with_db_cursor driver (db_cursor__init__ path)
      (λ cursor,
         cursor_execute driver fuel cursor text (Some params) ;;;
         fetch_rows_and_names driver cursor)).
  assert (Hshape :
    db_select driver fuel path table fields
      ((λ c : pyval * pyval, [c.1; c.2]) <$> cond)
    = (fetched <- m ;; lift (results_loop fetched.1 fetched.2 []))).
  { subst m text params. by destruct cond as [[c0 c1]|]. }
  rewrite Hshape. unfold bind.
  destruct (m (State w [])) as [st1 out1] eqn:Hwith.
  subst m. apply fetch_on_engine in Hwith.
  destruct Hwith as [[-> Hdisk]|[[[e ->] Hdisk]|(eff & Hq & Hdisk & Hout)]].
  - simpl. by rewrite Hdisk.
  - simpl. rewrite Hdisk. unfold db_at at 1. by rewrite lookup_insert_eq.
  - unfold run_query in Hq. subst text.
    rewrite parse_select_query in Hq;
      [|done|done|by destruct cond as [[c0 c1]|]].
    simpl in Hq.
    apply exec_select_rows in Hq
      as (tb & idxs & Htb & Hidxs & Hdb & Hdesc & Hrows).
    assert (Hafter : db_at (disk (st_world st1)) path = db_at (disk w) path).
    { rewrite Hdisk, Hdb. unfold db_at at 1. by rewrite lookup_insert_eq. }
    rewrite Hdesc in Hout. subst out1. cbn [fst snd].
    rewrite map_map, map_id.
    set (names := default (tbl_columns tb)
                    (if truthy fields then fields else None)) in *.
    destruct (results_loop (eff_rows eff) names []) as [e|results] eqn:Hloop;
      simpl; [done|].
    split; [done|]. exists tb. split; [done|].
    apply results_loop_spec in Hloop as (ms & -> & Hms). simpl.
    rewrite Hrows in Hms.
    apply (proj1 (Forall2_fmap_l
                    (λ r : Z * list pyval, map (cell r.2) idxs) _ _ _)) in Hms.
    assert (Hnames : names = if truthy fields then default [] fields
                             else tbl_columns tb).
    { subst names. by destruct fields as [[|f fields]|]. }
    rewrite <- Hnames.
    assert (Hsel :
      selected tb
        ((λ c, (c, default PyNone (last params)))
         <$> ((λ c : pyval * pyval, py_str c.1) <$> cond))
      = selected tb ((λ c : pyval * pyval, (py_str c.1, c.2)) <$> cond)).
    { subst params. by destruct cond as [[c0 c1]|]. }
    rewrite Hsel in Hms.
    eapply Forall2_impl; [exact Hms|].
    intros r mp Hmp. by apply (row_mapping_shows tb names idxs).
Qed.

(** *** [db_insert] and then [db_select] *)

(** X21: on the engine, for names that are plain identifiers and fields
    with distinct keys: after a [db_insert] that returned, a [db_select]
    on the same table with one of the inserted fields, one whose value is
    not [NULL], as condition returns, when it returns, a list whose last
    mapping takes every key of the fields to its value; it is the only
    mapping when no row had that value in that column before. *)
Theorem insert_then_select (fuel fuel' : nat) (path table : string)
    (fields : list (string * pyval)) (k : string) (v : pyval) (w : world) :
  is_identifier table = true →
  Forall (λ c, is_identifier c = true) (keys fields) →
  NoDup (keys fields) →
  (k, v) ∈ fields →
  sql_eq v v = true →
  let inserted := db_insert driver fuel path table fields (State w []) in
  let selected_ :=
    db_select driver fuel' path table None (Some [PyStr k; v])
      (State (st_world inserted.1) []) in
  ∀ rowid results,
    inserted.2 = Returned rowid →
    selected_.2 = Returned results →
    ∃ m,
      last results = Some m
      ∧ (∀ k' v', (k', v') ∈ fields → m !! k' = Some v')
      ∧ (∀ tb, db_at (disk w) path !! table = Some tb →
               selected tb (Some (k, v)) = [] → results = [m]).
Proof.
  intros Htable Hkeys Hdup Hkv Hv inserted selected_ rowid results Hins Hsel.
  subst selected_ inserted.
  (* the insert *)
  destruct (db_insert driver fuel path table fields (State w []))
    as [st1 out1] eqn:Hrun1.
  cbn [fst snd] in *. subst out1.
  unfold db_insert in Hrun1.
  rewrite decode_utf8_values_id, placeholders_joined, bind_ret_r in Hrun1.
  pose proof (insert_on_engine fuel path
                (PyString.format "insert into {0}({1}) values ({2})"
                   [table; PyString.join ", " (keys fields);
                    PyString.join ", " (replicate (length fields) "?")])
                (values fields) (PyString.join ", " (keys fields)) w) as Hone.
  cbv zeta in Hone. rewrite Hrun1 in Hone. cbn [fst snd] in Hone.
  destruct Hone as (eff & Hq & Hdisk1 & _).
  unfold run_query in Hq.
  replace (length fields) with (length (keys fields)) in Hq
    by (unfold keys; by rewrite length_fmap).
  rewrite parse_insert_query in Hq by done.
  destruct (decide (keys fields = [])); [done|].
  simpl in Hq.
  apply exec_insert_row in Hq as (tb & idxs & Htb & Hidxs & Hlen & _ & Heff).
  set (r := (next_rowid tb,
             foldl assign (replicate (length (tbl_columns tb)) PyNone)
                   (zip idxs (values fields)))) in *.
  assert (Hholds : holds tb fields r).
  { apply assigned_holds; [done|done|]. by rewrite length_replicate. }
  set (tb1 := with_rows tb (tbl_rows tb ++ [r])) in *.
  assert (Hat1 : db_at (disk (st_world st1)) path
                 = <[table:=tb1]> (db_at (disk w) path)).
  { rewrite Hdisk1, Heff. unfold db_at at 1. by rewrite lookup_insert_eq. }
  (* the select *)
  set (m :=
    with_db_cursor driver (db_cursor__init__ path)
      (λ cursor,
         cursor_execute driver fuel' cursor
           ("SELECT "
            +:+ (if truthy (@None (list string))
                 then PyString.join ", " (default [] None) else "*")
            +:+ " FROM " +:+ table +:+ where_text (Some k))
           (Some [v]) ;;;
         fetch_rows_and_names driver cursor)).
  assert (Hshape :
    db_select driver fuel' path table None (Some [PyStr k; v])
    = (fetched <- m ;; lift (results_loop fetched.1 fetched.2 []))) by done.
  rewrite Hshape in Hsel. unfold bind in Hsel.
  destruct (m (State (st_world st1) [])) as [st2 out2] eqn:Hwith.
  subst m. apply fetch_on_engine in Hwith.
  destruct Hwith as [[-> _]|[[[e ->] _]|(eff2 & Hq2 & _ & Hout)]]; [done|done|].
  unfold run_query in Hq2.
  assert (Hk : is_identifier k = true).
  { rewrite Forall_forall in Hkeys. apply Hkeys.
    apply list_elem_of_fmap. by exists (k, v). }
  rewrite (parse_select_query None table (Some k)) in Hq2 by done.
  simpl in Hq2.
  apply exec_select_rows in Hq2
    as (tb' & idxs2 & Htb' & Hidxs2 & _ & Hdesc & Hrows).
  rewrite Hat1, lookup_insert_eq in Htb'. injection Htb' as <-.
  simpl in Hidxs2, Hdesc, Hrows.
  rewrite Hdesc in Hout. subst out2. cbn [fst snd] in Hsel.
  rewrite map_map, map_id in Hsel.
  destruct (results_loop (eff_rows eff2) (tbl_columns tb) []) as [e|rs] eqn:Hloop;
    simpl in Hsel; [done|].
  injection Hsel as ->.
  apply results_loop_spec in Hloop as (ms & -> & Hms). simpl.
  rewrite Hrows in Hms.
  apply (proj1 (Forall2_fmap_l
                  (λ r : Z * list pyval, map (cell r.2) idxs2) _ _ _)) in Hms.
  destruct (Hholds k v Hkv) as (j & Hj & Hcell).
  rewrite Hj in Hms.
  assert (Hmatch : matches j v r = true).
  { unfold matches, cell. by rewrite Hcell. }
  rewrite filter_app, filter_cons_True, filter_nil in Hms by done.
  apply Forall2_app_inv_l in Hms as (ms1 & ms2 & Hold & Hnew & ->).
  apply Forall2_cons_inv_l in Hnew as (mp & ms3 & Hmp & Hnil & ->).
  apply Forall2_nil_inv_l in Hnil as ->.
  exists mp. split; [apply last_snoc|]. split.
  - intros k' v' Hin.
    destruct (Hholds k' v' Hin) as (j' & Hj' & Hcell').
    apply (row_mapping_shows tb1 (tbl_columns tb) idxs2) in Hmp as [_ Hmp];
      [|done].
    rewrite (Hmp k' j'); [|by apply column_index_lookup, list_elem_of_lookup_2 in Hj'|done].
    unfold cell. by rewrite Hcell'.
  - intros tb0 Htb0. rewrite Htb in Htb0. injection Htb0 as <-.
    simpl. rewrite Hj. intros Hnone.
    rewrite Hnone in Hold. by apply Forall2_nil_inv_l in Hold as ->.
Qed.

End OnEngine.

Section EngineRuns.

Import Engine Example Effects.

Local Open Scope nat_scope.

(** A row of one value under two column names. *)
Lemma results_loop_needs_long_rows_witness :
  results_loop [[PyInt 1; PyStr "Quake"]; [PyInt 2]] ["id"; "name"] []
  = inl (IndexError "tuple index out of range").
Proof.
  apply (results_loop_needs_long_rows
           [[PyInt 1; PyStr "Quake"]; [PyInt 2]] ["id"; "name"]).
  eexists. vm_compute. reflexivity.
Defined.

(** Deleting the second game, the file being locked once. *)
Lemma db_delete_removes_matching_rows_witness :
  let before := db_at (disk (idle [true])) "pga.db" in
  let run :=
    db_delete driver 5 "pga.db" "games" "id" (PyInt 2)
      (State (idle [true]) []) in
  let after := db_at (disk (st_world run.1)) "pga.db" in
  (∀ path', path' ≠ "pga.db" →
            disk (st_world run.1) !! path' = disk (idle [true]) !! path')
  ∧ match run.2 with
    | Returned _ =>
        ∃ tb j,
          before !! "games" = Some tb
          ∧ column_index (tbl_columns tb) "id" = Some j
          ∧ after
            = <[("games" : string):=with_rows tb
                         (filter (λ r, matches j (PyInt 2) r = false)
                                 (tbl_rows tb))]> before
    | _ => after = before
    end.
Proof.
  apply (db_delete_removes_matching_rows 5 "pga.db" "games" "id" (PyInt 2)
           (idle [true])); reflexivity.
Defined.

(** Renaming the first game. *)
Lemma db_update_sets_values_witness :
  let before := db_at (disk (idle [])) "pga.db" in
  let run :=
    db_update driver 5 "pga.db" "games"
      [("name", PyStr "Quake II"); ("slug", PyStr "quake2")]
      (PyStr "id", PyInt 1) (State (idle []) []) in
  let after := db_at (disk (st_world run.1)) "pga.db" in
  match run.2 with
  | Returned _ =>
      ∃ tb tb',
        before !! "games" = Some tb
        ∧ after = <[("games" : string):=tb']> before
        ∧ (well_formed tb →
           Forall2
             (λ r r', targeted tb "id" (PyInt 1) r →
                      holds tb [("name", PyStr "Quake II");
                                ("slug", PyStr "quake2")] r')
             (tbl_rows tb) (tbl_rows tb'))
  | _ => after = before
  end.
Proof.
  apply (db_update_sets_values 5 "pga.db" "games"
           [("name", PyStr "Quake II"); ("slug", PyStr "quake2")]
           (PyStr "id", PyInt 1) (idle []));
    [reflexivity|by repeat constructor|reflexivity|].
  apply NoDup_cons. split; [|apply NoDup_singleton].
  intros Hin%list_elem_of_singleton. discriminate Hin.
Defined.

(** A third game. *)
Lemma db_insert_adds_row_witness :
  let before := db_at (disk (idle [])) "pga.db" in
  let run :=
    db_insert driver 5 "pga.db" "games"
      [("name", PyStr "Doom 2"); ("slug", PyStr "doom2")]
      (State (idle []) []) in
  let after := db_at (disk (st_world run.1)) "pga.db" in
  match run.2 with
  | Returned v =>
      ∃ tb r,
        before !! "games" = Some tb
        ∧ v = PyInt r.1
        ∧ r.1 = next_rowid tb
        ∧ after = <[("games" : string):=with_rows tb (tbl_rows tb ++ [r])]> before
        ∧ holds tb [("name", PyStr "Doom 2"); ("slug", PyStr "doom2")] r
        ∧ null_elsewhere tb
            [("name", PyStr "Doom 2"); ("slug", PyStr "doom2")] r
  | _ => after = before
  end.
Proof.
  apply (db_insert_adds_row 5 "pga.db" "games"
           [("name", PyStr "Doom 2"); ("slug", PyStr "doom2")] (idle []));
    [reflexivity|by repeat constructor|].
  apply NoDup_cons. split; [|apply NoDup_singleton].
  intros Hin%list_elem_of_singleton. discriminate Hin.
Defined.

(** A column for the year. *)
Lemma add_field_adds_column_witness :
  let before := db_at (disk (idle [])) "pga.db" in
  let run :=
    add_field driver "pga.db" "games"
      {["name" := PyStr "year"; "type" := PyStr "INTEGER"]}
      (State (idle []) []) in
  let after := db_at (disk (st_world run.1)) "pga.db" in
  match run.2 with
  | Returned _ =>
      ∃ tb,
        before !! "games" = Some tb
        ∧ ("year" ∉ tbl_columns tb)
        ∧ after = <[("games" : string):=with_column tb "year"]> before
  | _ => after = before
  end.
Proof.
  apply (add_field_adds_column "pga.db" "games"
           {["name" := PyStr "year"; "type" := PyStr "INTEGER"]}
           (PyStr "year") (PyStr "INTEGER") (idle [])); reflexivity.
Defined.

(** The name and the number of the second game. *)
Lemma db_select_returns_selected_rows_witness :
  let before := db_at (disk (idle [true])) "pga.db" in
  let run :=
    db_select driver 5 "pga.db" "games" (Some ["name"; "id"])
      (Some [PyStr "id"; PyInt 2]) (State (idle [true]) []) in
  let after := db_at (disk (st_world run.1)) "pga.db" in
  after = before
  ∧ match run.2 with
    | Returned results =>
        ∃ tb,
          before !! "games" = Some tb
          ∧ Forall2 (shows tb ["name"; "id"])
              (selected tb (Some ("id", PyInt 2))) results
    | _ => True
    end.
Proof.
  apply (db_select_returns_selected_rows 5 "pga.db" "games"
           (Some ["name"; "id"]) (Some (PyStr "id", PyInt 2)) (idle [true]));
    [reflexivity|by repeat constructor|reflexivity].
Defined.

(** A third game, and then the games of its name. *)
Lemma insert_then_select_witness :
  let inserted :=
    db_insert driver 5 "pga.db" "games"
      [("name", PyStr "Doom 2"); ("slug", PyStr "doom2")]
      (State (idle []) []) in
  let selected_ :=
    db_select driver 5 "pga.db" "games" None
      (Some [PyStr "name"; PyStr "Doom 2"])
      (State (st_world inserted.1) []) in
  ∃ rowid results m,
    inserted.2 = Returned rowid
    ∧ selected_.2 = Returned results
    ∧ results = [m]
    ∧ m !! "name" = Some (PyStr "Doom 2")
    ∧ m !! "slug" = Some (PyStr "doom2").
Proof.
  intros inserted selected_.
  assert (∃ rowid, inserted.2 = Returned rowid) as [rowid Hins]
    by (eexists; vm_compute; reflexivity).
  assert (∃ results, selected_.2 = Returned results) as [results Hsel]
    by (eexists; vm_compute; reflexivity).
  assert (Hdup : NoDup (keys [("name", PyStr "Doom 2");
                              ("slug", PyStr "doom2")])).
  { apply NoDup_cons. split; [|apply NoDup_singleton].
    intros Hin%list_elem_of_singleton. discriminate Hin. }
  destruct (insert_then_select 5 5 "pga.db" "games"
              [("name", PyStr "Doom 2"); ("slug", PyStr "doom2")]
              "name" (PyStr "Doom 2") (idle [])
              eq_refl ltac:(by repeat constructor) Hdup
              ltac:(apply list_elem_of_here) eq_refl
              rowid results Hins Hsel) as (m & _ & Hm & Hone).
  exists rowid, results, m.
  split; [done|]. split; [done|].
  split; [apply (Hone games); reflexivity|].
  split; apply Hm.
  - apply list_elem_of_here.
  - apply list_elem_of_further, list_elem_of_here.
Defined.

End EngineRuns.
